(** * LaTeX-to-HTML content pipeline of [tex2html_book/tex2html.py]

    A shallow embedding of the text-rewriting passes of [latex_to_html] and
    of the converters it calls, followed by the properties of the
    specification that were checked against them.

    Modelling conventions.
    - A Python [str] is a [string] of 8-bit characters holding its UTF-8
      encoding.  White space ([str.strip()], [\s] outside a character class)
      is read character by character, the white-space characters above
      U+007F being the byte sequences of [Py.WIDE_SPACES].  The classes
      [\w] and [\d], the word boundary and the lower-casing of a file
      extension look at ASCII only: the model is exact on a text whose
      letters and digits are ASCII.
    - Python's [re] is embedded as a backtracking matcher ([Re.mt]) over a
      first-order syntax, and every pattern of the source is kept as the
      pattern text of the source, read by [Re.parse].
    - Mutable cells ([counter[0]], [store], [label_counters]) are threaded
      explicitly through the callbacks of [re.sub].
    - The file system and the external diagram renderer are a record of
      oracles ([world]). *)

From Stdlib Require Import String Ascii List Bool Arith ZArith Lia.
From Stdlib Require Import DecimalString DecimalNat DecimalFacts.
From stdpp Require Import base option gmap strings.
Import ListNotations.
Local Open Scope string_scope.
Local Open Scope nat_scope.

#[global] Arguments String.append !s1 s2 / : simpl nomatch.
#[global] Arguments Ascii.eqb : simpl never.

(* ===================================================================== *)
(** ** Python strings *)
(* ===================================================================== *)
Module Py.

Definition nl : string := String "010"%char "".
Definition dq : string := String "034"%char "".
Definition nul : ascii := "000"%char.

Definition code (c : ascii) : nat := nat_of_ascii c.

Definition between (lo hi : nat) (c : ascii) : bool :=
  (lo <=? code c) && (code c <=? hi).

(** The text of a list of bytes. *)
Definition utf8 (bytes : list nat) : string :=
  fold_right (fun b s => String (ascii_of_nat b) s) "" bytes.

(** [str.isspace] below U+0080: TAB..CR, FS..US and the blank. *)
Definition is_space (c : ascii) : bool :=
  between 9 13 c || between 28 32 c.

(** The white-space characters above U+007F, in UTF-8: U+0085, U+00A0,
    U+1680, U+2000 to U+200A, U+2028, U+2029, U+202F, U+205F, U+3000. *)
Definition WIDE_SPACES : list string :=
  Eval vm_compute in
    ([utf8 [194; 133]; utf8 [194; 160]; utf8 [225; 154; 128]]
     ++ map (fun b => utf8 [226; 128; b]) (seq 128 11)
     ++ [utf8 [226; 128; 168]; utf8 [226; 128; 169]; utf8 [226; 128; 175];
         utf8 [226; 129; 159]; utf8 [227; 128; 128]])%list.

Definition is_digit (c : ascii) : bool := between 48 57 c.

(** [\w] on ASCII. *)
Definition is_word (c : ascii) : bool :=
  between 48 57 c || between 65 90 c || between 97 122 c || Ascii.eqb c "_".

Fixpoint rev_onto (s acc : string) : string :=
  match s with
  | EmptyString => acc
  | String c t => rev_onto t (String c acc)
  end.

Definition rev (s : string) : string := rev_onto s "".

Fixpoint lstrip_by (p : ascii -> bool) (s : string) : string :=
  match s with
  | String c t => if p c then lstrip_by p t else s
  | EmptyString => ""
  end.

Definition strip_by (p : ascii -> bool) (s : string) : string :=
  rev (lstrip_by p (rev (lstrip_by p s))).

(** [s.startswith(p)] *)
Fixpoint startswith (p s : string) : bool :=
  match p, s with
  | EmptyString, _ => true
  | String a p', String b s' => Ascii.eqb a b && startswith p' s'
  | String _ _, EmptyString => false
  end.

(** The number of bytes of the white-space character a text opens with,
    0 when it opens with none; [wide] lists the characters of several
    bytes. *)
Definition space_width (wide : list string) (s : string) : nat :=
  match s with
  | String c _ =>
      if is_space c then 1
      else match List.find (fun e => startswith e s) wide with
           | Some e => String.length e
           | None => 0
           end
  | EmptyString => 0
  end.

(** The text without its leading white space; [skip] counts the bytes of
    the current character that are still to drop. *)
Fixpoint lstrip_go (wide : list string) (skip : nat) (s : string) : string :=
  match s with
  | EmptyString => ""
  | String _ t =>
      match skip with
      | S k => lstrip_go wide k t
      | O =>
          match space_width wide s with
          | S k => lstrip_go wide k t
          | O => s
          end
      end
  end.

(** [s.lstrip()] *)
Definition lstrip (s : string) : string := lstrip_go WIDE_SPACES 0 s.

(** [s.rstrip()], on the text read backwards. *)
Definition rstrip (s : string) : string :=
  rev (lstrip_go (map rev WIDE_SPACES) 0 (rev s)).

(** [s.strip()] *)
Definition strip (s : string) : string := rstrip (lstrip s).

Fixpoint mem_char (c : ascii) (cs : string) : bool :=
  match cs with
  | EmptyString => false
  | String d t => Ascii.eqb c d || mem_char c t
  end.

(** [s.strip(chars)] *)
Definition strip_chars (cs : string) (s : string) : string :=
  strip_by (fun c => mem_char c cs) s.

Fixpoint take (n : nat) (s : string) : string :=
  match n, s with
  | S k, String c t => String c (take k t)
  | _, _ => ""
  end.

Fixpoint drop (n : nat) (s : string) : string :=
  match n, s with
  | S k, String _ t => drop k t
  | _, _ => s
  end.

(** [p in s] *)
Fixpoint contains (p s : string) : bool :=
  startswith p s ||
  match s with
  | EmptyString => false
  | String _ t => contains p t
  end.

(** [s.replace(old, new)] for a non-empty [old]: leftmost occurrences,
    not overlapping.  [skip] counts the characters of an occurrence that
    are still to be passed over. *)
Fixpoint replace_go (old new : string) (skip : nat) (s : string) : string :=
  match s with
  | EmptyString => ""
  | String c t =>
      match skip with
      | S k => replace_go old new k t
      | O => if startswith old s
             then new ++ replace_go old new (String.length old - 1) t
             else String c (replace_go old new 0 t)
      end
  end.

Fixpoint intersperse_new (new s : string) : string :=
  match s with
  | EmptyString => new
  | String c t => new ++ String c (intersperse_new new t)
  end.

Definition replace (old new s : string) : string :=
  match old with
  | EmptyString => intersperse_new new s
  | _ => replace_go old new 0 s
  end.

(** [s.split(c)] for a one-character separator. *)
Fixpoint split_go (sep : ascii) (s : string) (cur : string) : list string :=
  match s with
  | EmptyString => [rev cur]
  | String c t => if Ascii.eqb c sep then rev cur :: split_go sep t ""
                  else split_go sep t (String c cur)
  end.

Definition split (sep : ascii) (s : string) : list string := split_go sep s "".

(** [sep.join(l)] *)
Fixpoint join (sep : string) (l : list string) : string :=
  match l with
  | [] => ""
  | [x] => x
  | x :: t => x ++ sep ++ join sep t
  end.

(** [str(n)] for a natural number. *)
Definition dec (n : nat) : string := NilEmpty.string_of_uint (Nat.to_uint n).

(** [str(z)] for an integer. *)
Definition str_int (z : Z) : string :=
  match z with
  | Zneg p => "-" ++ dec (Pos.to_nat p)
  | _ => dec (Z.to_nat z)
  end.

Definition is_empty (s : string) : bool :=
  match s with EmptyString => true | _ => false end.

Fixpoint all_chars (p : ascii -> bool) (s : string) : bool :=
  match s with
  | EmptyString => true
  | String c t => p c && all_chars p t
  end.

End Py.

(* ===================================================================== *)
(** ** Regular expressions of Python's [re] *)
(* ===================================================================== *)
Module Re.

Inductive citem : Type :=
| CC (c : ascii)          (* a character *)
| CR (lo hi : ascii)      (* a range a-z *)
| CSp | CWd | CDg.        (* \s \w \d, below U+0080 *)

Inductive re : Type :=
| Eps
| Lit (c : ascii)
| Any (dotall : bool)
| Cls (neg : bool) (items : list citem)
| Seq (a b : re)
| Alt (a b : re)
| Rep (greedy : bool) (lo : nat) (hi : option nat) (a : re)
| Grp (i : nat) (a : re)
| Bref (i : nat)
| Ahead (neg : bool) (a : re)
| Behind (neg : bool) (a : re)   (* a is one character wide *)
| Bol
| Eol
| Wordb
| Never.

Definition citem_has (c : ascii) (i : citem) : bool :=
  match i with
  | CC d => Ascii.eqb c d
  | CR lo hi => Py.between (Py.code lo) (Py.code hi) c
  | CSp => Py.is_space c
  | CWd => Py.is_word c
  | CDg => Py.is_digit c
  end.

Definition cls_has (neg : bool) (items : list citem) (c : ascii) : bool :=
  xorb neg (existsb (citem_has c) items).

(** The state of a match attempt: the character before the position, the
    text from the position on, and the groups captured so far. *)
Record mstate : Type := MS {
  ms_prev : option ascii;
  ms_rest : string;
  ms_caps : list (nat * string)
}.

Fixpoint cap_get (i : nat) (caps : list (nat * string)) : option string :=
  match caps with
  | [] => None
  | (j, w) :: t => if i =? j then Some w else cap_get i t
  end.

Fixpoint last_char (prev : option ascii) (w : string) : option ascii :=
  match w with
  | EmptyString => prev
  | String c t => last_char (Some c) t
  end.

Definition word_at (o : option ascii) : bool :=
  match o with Some c => Py.is_word c | None => false end.

Definition next_char (s : string) : option ascii :=
  match s with String c _ => Some c | EmptyString => None end.

Definition under (hi : option nat) (n : nat) : bool :=
  match hi with Some h => n <? h | None => true end.

(** The loop of a repetition [a{lo,hi}], greedy or lazy, given the
    matcher [body] of [a]: [n] counts the iterations made.  An iteration
    past the lower bound has to consume text, so [fuel] is never used up. *)
Fixpoint rep_loop (body : mstate -> (mstate -> option mstate) -> option mstate)
    (g : bool) (lo : nat) (hi : option nat) (k : mstate -> option mstate)
    (fuel n : nat) (s : mstate) {struct fuel} : option mstate :=
  match fuel with
  | O => if lo <=? n then k s else None
  | S fuel' =>
      if g then
        match (if under hi n
               then body s (fun s1 =>
                      if (String.length (ms_rest s1) <? String.length (ms_rest s))
                         || (n <? lo)
                      then rep_loop body g lo hi k fuel' (S n) s1 else None)
               else None) with
        | Some x => Some x
        | None => if lo <=? n then k s else None
        end
      else
        match (if lo <=? n then k s else None) with
        | Some x => Some x
        | None =>
            if under hi n
            then body s (fun s1 =>
                   if (String.length (ms_rest s1) <? String.length (ms_rest s))
                      || (n <? lo)
                   then rep_loop body g lo hi k fuel' (S n) s1 else None)
            else None
        end
  end.

(** The backtracking matcher, in continuation-passing style: [mt r s k]
    tries the ways [r] matches at [s] in Python's priority order and
    returns the first one the continuation [k] accepts.  (No pattern of
    the program repeats an expression that can match the empty text; the
    engine's rules for that case are not modelled.) *)
Fixpoint mt (r : re) (s : mstate) (k : mstate -> option mstate) {struct r}
  : option mstate :=
  match r with
  | Eps => k s
  | Lit c =>
      match ms_rest s with
      | String d t => if Ascii.eqb d c then k (MS (Some d) t (ms_caps s)) else None
      | EmptyString => None
      end
  | Any dotall =>
      match ms_rest s with
      | String d t =>
          if dotall || negb (Ascii.eqb d "010")
          then k (MS (Some d) t (ms_caps s)) else None
      | EmptyString => None
      end
  | Cls neg items =>
      match ms_rest s with
      | String d t =>
          if cls_has neg items d then k (MS (Some d) t (ms_caps s)) else None
      | EmptyString => None
      end
  | Seq a b => mt a s (fun s1 => mt b s1 k)
  | Alt a b =>
      match mt a s k with
      | Some x => Some x
      | None => mt b s k
      end
  | Rep g lo hi a =>
      rep_loop (mt a) g lo hi k (lo + S (String.length (ms_rest s))) 0 s
  | Grp i a =>
      mt a s (fun s1 =>
        k (MS (ms_prev s1) (ms_rest s1)
              ((i, Py.take (String.length (ms_rest s) - String.length (ms_rest s1))
                           (ms_rest s)) :: ms_caps s1)))
  | Bref i =>
      match cap_get i (ms_caps s) with
      | Some w =>
          if Py.startswith w (ms_rest s)
          then k (MS (last_char (ms_prev s) w)
                     (Py.drop (String.length w) (ms_rest s)) (ms_caps s))
          else None
      | None => None
      end
  | Ahead neg a =>
      match mt a s Some with
      | Some _ => if neg then None else k s
      | None => if neg then k s else None
      end
  | Behind neg a =>
      match ms_prev s with
      | Some c =>
          match mt a (MS None (String c "") [])
                  (fun s1 => if Py.is_empty (ms_rest s1) then Some s1 else None) with
          | Some _ => if neg then None else k s
          | None => if neg then k s else None
          end
      | None => if neg then k s else None
      end
  | Bol => match ms_prev s with None => k s | Some _ => None end
  | Eol =>
      match ms_rest s with
      | EmptyString => k s
      | String "010"%char EmptyString => k s
      | _ => None
      end
  | Wordb =>
      if xorb (word_at (ms_prev s)) (word_at (next_char (ms_rest s)))
      then k s else None
  | Never => None
  end.

(** A match object: [group(0)] and the numbered groups. *)
Record rmatch : Type := RM {
  m_all : string;
  m_caps : list (nat * string)
}.

(** [m.group(i)], [None] when the group took no part in the match. *)
Definition group_opt (i : nat) (m : rmatch) : option string :=
  match i with
  | O => Some (m_all m)
  | _ => cap_get i (m_caps m)
  end.

(** [m.group(i) or ''] *)
Definition group (i : nat) (m : rmatch) : string :=
  match group_opt i m with Some w => w | None => "" end.

(** One attempt at one position.  [adv] is the engine's must-advance
    flag: an empty match is then refused. *)
Definition exec (r : re) (prev : option ascii) (s : string) (adv : bool)
  : option rmatch :=
  match mt r (MS prev s [])
          (fun s1 => if adv && (String.length (ms_rest s1) =? String.length s)
                     then None else Some s1) with
  | Some s1 =>
      Some (RM (Py.take (String.length s - String.length (ms_rest s1)) s)
               (ms_caps s1))
  | None => None
  end.

(** [re.match(r, s)] *)
Definition rmatch_at_start (r : re) (s : string) : option rmatch :=
  exec r None s false.

(** [re.finditer]: the matches from left to right, each with the text
    between the previous match and itself, and the text after the last
    match.  [gap] is that text so far, reversed; [skip] counts the
    characters of the current match still to pass. *)
Fixpoint scan (r : re) (prev : option ascii) (s : string) (skip : nat)
    (gap : string) {struct s} : list (string * rmatch) * string :=
  match skip with
  | S k =>
      match s with
      | String c t => scan r (Some c) t k gap
      | EmptyString => ([], Py.rev gap)
      end
  | O =>
      match exec r prev s false with
      | Some m =>
          match String.length (m_all m) with
          | S n =>
              match s with
              | String c t =>
                  let '(ms, tl) := scan r (Some c) t n "" in
                  ((Py.rev gap, m) :: ms, tl)
              | EmptyString => ([(Py.rev gap, m)], "")
              end
          | O =>
              (* an empty match: the engine searches again from the same
                 position and must advance *)
              match s with
              | String c t =>
                  match exec r prev s true with
                  | Some m2 =>
                      let '(ms, tl) :=
                        scan r (Some c) t (String.length (m_all m2) - 1) "" in
                      ((Py.rev gap, m) :: ("", m2) :: ms, tl)
                  | None =>
                      let '(ms, tl) := scan r (Some c) t 0 (String c "") in
                      ((Py.rev gap, m) :: ms, tl)
                  end
              | EmptyString => ([(Py.rev gap, m)], "")
              end
          end
      | None =>
          match s with
          | String c t => scan r (Some c) t 0 (String c gap)
          | EmptyString => ([], Py.rev gap)
          end
      end
  end.

Definition finditer (r : re) (s : string) : list (string * rmatch) * string :=
  scan r None s 0 "".

(** [re.sub(r, f, s)] with a callback. *)
Definition sub (r : re) (f : rmatch -> string) (s : string) : string :=
  let '(ms, tl) := finditer r s in
  fold_right (fun gm acc => fst gm ++ f (snd gm) ++ acc) tl ms.

(** [re.sub(r, f, s)] with a callback that reads and writes mutable
    cells, threaded as [st]. *)
Fixpoint sub_fold {St : Type} (f : rmatch -> St -> string * St)
    (ms : list (string * rmatch)) (tl : string) (st : St) : string * St :=
  match ms with
  | [] => (tl, st)
  | (g, m) :: ms' =>
      let '(out, st1) := f m st in
      let '(rest, st2) := sub_fold f ms' tl st1 in
      (g ++ out ++ rest, st2)
  end.

Definition sub_st {St : Type} (r : re) (f : rmatch -> St -> string * St)
    (s : string) (st : St) : string * St :=
  let '(ms, tl) := finditer r s in sub_fold f ms tl st.

(** [re.search(r, s)]: the text before the first match, the match and
    the text after it. *)
Fixpoint search_go (r : re) (prev : option ascii) (s : string) (bef : string)
  : option (string * rmatch * string) :=
  match exec r prev s false with
  | Some m => Some (Py.rev bef, m, Py.drop (String.length (m_all m)) s)
  | None =>
      match s with
      | String c t => search_go r (Some c) t (String c bef)
      | EmptyString => None
      end
  end.

Definition search (r : re) (s : string) : option (string * rmatch * string) :=
  search_go r None s "".

(** [re.sub(r, f, s, count=1)] *)
Definition sub1 (r : re) (f : rmatch -> string) (s : string) : string :=
  match search r s with
  | Some (a, m, b) => a ++ f m ++ b
  | None => s
  end.

(** [re.split(r, s)] for a pattern without capturing groups. *)
Definition split (r : re) (s : string) : list string :=
  let '(ms, tl) := finditer r s in map fst ms ++ [tl].

(** *** Reading a pattern

    The patterns of the source are kept as text and read by a recursive
    descent over Python's pattern syntax (the part of it the program
    uses).  [dotall] is the flag [re.DOTALL]; [g] is the number of
    capturing groups opened so far. *)

Definition is_quant_start (c : ascii) : bool :=
  Py.mem_char c "*+?{".

Fixpoint read_nat (s : string) (acc : nat) : nat * string :=
  match s with
  | String c t =>
      if Py.is_digit c then read_nat t (10 * acc + (Py.code c - 48))
      else (acc, s)
  | EmptyString => (acc, s)
  end.

(** A quantifier after an atom, when there is one. *)
Definition read_quant (a : re) (s : string) : re * string :=
  let lazy (lo : nat) (hi : option nat) (t : string) :=
    match t with
    | String "?" t' => (Rep false lo hi a, t')
    | _ => (Rep true lo hi a, t)
    end in
  match s with
  | String "*" t => lazy 0 None t
  | String "+" t => lazy 1 None t
  | String "?" t => lazy 0 (Some 1) t
  | String "{" t =>
      match t with
      | String d _ =>
          if Py.is_digit d then
            let '(lo, t1) := read_nat t 0 in
            match t1 with
            | String "}" t2 => lazy lo (Some lo) t2
            | String "," (String "}" t2) => lazy lo None t2
            | String "," t2 =>
                let '(hi, t3) := read_nat t2 0 in
                match t3 with
                | String "}" t4 => lazy lo (Some hi) t4
                | _ => (a, s)
                end
            | _ => (a, s)
            end
          else (a, s)
      | EmptyString => (a, s)
      end
  | _ => (a, s)
  end.

Definition class_escape (c : ascii) : citem :=
  if Ascii.eqb c "d" then CDg
  else if Ascii.eqb c "s" then CSp
  else if Ascii.eqb c "w" then CWd
  else if Ascii.eqb c "n" then CC "010"
  else if Ascii.eqb c "t" then CC "009"
  else CC c.

(** The items of a character class, up to the closing bracket. *)
Fixpoint read_class (fuel : nat) (s : string) (acc : list citem)
  : option (list citem * string) :=
  match fuel with
  | O => None
  | S f =>
      match s with
      | EmptyString => None
      | String "]" t => Some (List.rev acc, t)
      | String "\" (String c t) => read_class f t (class_escape c :: acc)
      | String c (String "-" (String d t)) =>
          if Ascii.eqb d "]" then read_class f (String "-" (String d t)) (CC c :: acc)
          else read_class f t (CR c d :: acc)
      | String c t => read_class f t (CC c :: acc)
      end
  end.

(** The expression of a text: its characters in turn. *)
Fixpoint word (w : string) : re :=
  match w with
  | EmptyString => Eps
  | String c EmptyString => Lit c
  | String c t => Seq (Lit c) (word t)
  end.

(** [\s]: one white-space character, of one byte or of several. *)
Definition space : re :=
  Eval vm_compute in
    fold_right (fun e r => Alt r (word e)) (Cls false [CSp]) Py.WIDE_SPACES.

Definition escape_atom (c : ascii) : re :=
  if Ascii.eqb c "d" then Cls false [CDg]
  else if Ascii.eqb c "s" then space
  else if Ascii.eqb c "w" then Cls false [CWd]
  else if Ascii.eqb c "b" then Wordb
  else if Ascii.eqb c "n" then Lit "010"
  else if Ascii.eqb c "t" then Lit "009"
  else if Py.between 49 57 c then Bref (Py.code c - 48)
  else Lit c.

Definition seq (a b : re) : re :=
  match a, b with
  | Eps, _ => b
  | _, Eps => a
  | _, _ => Seq a b
  end.

Fixpoint p_alt (dotall : bool) (fuel : nat) (s : string) (g : nat) {struct fuel}
  : option (re * string * nat) :=
  match fuel with
  | O => None
  | S f =>
      match p_seq dotall f s g with
      | Some (a, String "|" t, g1) =>
          match p_alt dotall f t g1 with
          | Some (b, t', g2) => Some (Alt a b, t', g2)
          | None => None
          end
      | other => other
      end
  end
with p_seq (dotall : bool) (fuel : nat) (s : string) (g : nat) {struct fuel}
  : option (re * string * nat) :=
  match fuel with
  | O => None
  | S f =>
      match s with
      | EmptyString => Some (Eps, s, g)
      | String "|" _ => Some (Eps, s, g)
      | String ")" _ => Some (Eps, s, g)
      | _ =>
          match p_atom dotall f s g with
          | Some (a, t, g1) =>
              let '(a', t') := read_quant a t in
              match p_seq dotall f t' g1 with
              | Some (b, t'', g2) => Some (seq a' b, t'', g2)
              | None => None
              end
          | None => None
          end
      end
  end
with p_atom (dotall : bool) (fuel : nat) (s : string) (g : nat) {struct fuel}
  : option (re * string * nat) :=
  match fuel with
  | O => None
  | S f =>
      let closing (wrap : re -> re) (t : string) (g0 : nat) :=
        match p_alt dotall f t g0 with
        | Some (a, String ")" t', g1) => Some (wrap a, t', g1)
        | _ => None
        end in
      match s with
      | EmptyString => None
      | String "(" (String "?" (String ":" t)) => closing (fun a => a) t g
      | String "(" (String "?" (String "!" t)) => closing (Ahead true) t g
      | String "(" (String "?" (String "=" t)) => closing (Ahead false) t g
      | String "(" (String "?" (String "<" (String "!" t))) => closing (Behind true) t g
      | String "(" (String "?" (String "<" (String "=" t))) => closing (Behind false) t g
      | String "(" (String "?" _) => None
      | String "(" t => closing (Grp (S g)) t (S g)
      | String "[" (String "^" t) =>
          match read_class (S (String.length t)) t [] with
          | Some (items, t') => Some (Cls true items, t', g)
          | None => None
          end
      | String "[" t =>
          match read_class (S (String.length t)) t [] with
          | Some (items, t') => Some (Cls false items, t', g)
          | None => None
          end
      | String "\" (String c t) => Some (escape_atom c, t, g)
      | String "\" EmptyString => None
      | String "." t => Some (Any dotall, t, g)
      | String "^" t => Some (Bol, t, g)
      | String "$" t => Some (Eol, t, g)
      | String c t =>
          if is_quant_start c then None else Some (Lit c, t, g)
      end
  end.

Definition parse_opt (dotall : bool) (p : string) : option re :=
  match p_alt dotall (3 * String.length p + 3) p 0 with
  | Some (r, EmptyString, _) => Some r
  | _ => None
  end.

(** [re.compile(p)] and [re.compile(p, re.DOTALL)]; a pattern outside
    the syntax above reads as [Never]. *)
Definition parse (p : string) : re :=
  match parse_opt false p with Some r => r | None => Never end.

Definition parse_dotall (p : string) : re :=
  match parse_opt true p with Some r => r | None => Never end.

(** [re.escape(s)] *)
Fixpoint escape (s : string) : string :=
  match s with
  | EmptyString => ""
  | String c t =>
      if Py.mem_char c "()[]{}?*+-|^$\.&~# " || Py.between 9 13 c
      then String "\" (String c (escape t))
      else String c (escape t)
  end.

End Re.


Import Py.

(** The match objects handed to callbacks. *)
Abbreviation rmatch := Re.rmatch.
Abbreviation group := Re.group.

(** Outcomes of code that may raise. *)
Inductive outcome (A : Type) : Type :=
| Ok (a : A)
| Raise (exn : string).
Arguments Ok {A} a.
Arguments Raise {A} exn.

Definition obind {A B : Type} (x : outcome A) (f : A -> outcome B) : outcome B :=
  match x with
  | Ok a => f a
  | Raise e => Raise e
  end.

Notation "'do' x <- c1 ; c2" := (obind c1 (fun x => c2))
  (at level 10, x pattern, c1 at level 100, c2 at level 200).

(* ===================================================================== *)
(** ** Replacement templates *)
(* ===================================================================== *)

(** A replacement given to [re.sub] as a text is read as a template
    ([parse_template], as Python 3.11 has it): a backslash opens an
    escape or a reference to a group.  The one replacement of the
    program that is not a constant is used with a pattern without
    groups, so the whole match is the only group there is, and every
    other reference is an error.  A template is read before the text is
    searched: its errors are raised whether or not the pattern matches. *)
Inductive tpart : Type :=
| TText (s : string)      (* literal text *)
| TMatch.                 (* the whole match, [\g<0>] *)

Definition is_octal (c : ascii) : bool := between 48 55 c.

Definition is_letter (c : ascii) : bool := between 65 90 c || between 97 122 c.

(** [chr(v)] for [v] below 256. *)
Definition chr (v : nat) : string :=
  if v <? 128 then utf8 [v] else utf8 [192 + v / 64; 128 + v mod 64].

(** The escapes [\a \b \f \n \r \t \v] and the doubled backslash. *)
Definition template_escape (c : ascii) : option nat :=
  if Ascii.eqb c "a" then Some 7
  else if Ascii.eqb c "b" then Some 8
  else if Ascii.eqb c "f" then Some 12
  else if Ascii.eqb c "n" then Some 10
  else if Ascii.eqb c "r" then Some 13
  else if Ascii.eqb c "t" then Some 9
  else if Ascii.eqb c "v" then Some 11
  else if Ascii.eqb c "\" then Some 92
  else None.

(** The group name of [\g<name>] and the text after it. *)
Fixpoint until_gt (s : string) (acc : string) : option (string * string) :=
  match s with
  | EmptyString => None
  | String c t =>
      if Ascii.eqb c ">" then Some (rev acc, t) else until_gt t (String c acc)
  end.

(** [name.isidentifier()] *)
Definition is_identifier (name : string) : bool :=
  match name with
  | String c t => (is_letter c || Ascii.eqb c "_") && all_chars is_word t
  | EmptyString => false
  end.

(** Zeros, with single underscores between them allowed. *)
Fixpoint zeros (s : string) : bool :=
  match s with
  | EmptyString => true
  | String "0" t => zeros t
  | String "_" (String "0" t) => zeros t
  | _ => false
  end.

(** [int(name) == 0]: the one number that names a group. *)
Definition zero_index (name : string) : bool :=
  match strip name with
  | String "+" (String "0" t) | String "-" (String "0" t) | String "0" t => zeros t
  | _ => false
  end.

Definition digit_value (c : ascii) : nat := code c - 48.

(** [re.error] is the exception ["error"]. *)
Fixpoint parse_template (fuel : nat) (s : string) : outcome (list tpart) :=
  match fuel with
  | O => Ok []
  | S f =>
      let literal (x t : string) := do r <- parse_template f t; Ok (TText x :: r) in
      match s with
      | EmptyString => Ok []
      | String "\" EmptyString => Raise "error"
      | String "\" (String c t) =>
          if Ascii.eqb c "g" then
            match t with
            | String "<" t1 =>
                match until_gt t1 "" with
                | Some (name, t2) =>
                    if is_empty name then Raise "error"
                    else if is_identifier name then Raise "IndexError"
                    else if zero_index name
                         then do r <- parse_template f t2; Ok (TMatch :: r)
                         else Raise "error"
                | None => Raise "error"
                end
            | _ => Raise "error"
            end
          else if Ascii.eqb c "0" then
            (* an octal escape of up to three digits *)
            match t with
            | String d t1 =>
                if is_octal d then
                  match t1 with
                  | String e t2 =>
                      if is_octal e
                      then literal (chr (8 * digit_value d + digit_value e)) t2
                      else literal (chr (digit_value d)) t1
                  | EmptyString => literal (chr (digit_value d)) t1
                  end
                else literal (chr 0) t
            | EmptyString => literal (chr 0) t
            end
          else if is_digit c then
            (* three octal digits are an escape; anything else refers to a
               group the pattern does not have *)
            match t with
            | String d (String e t2) =>
                if is_octal c && is_octal d && is_octal e then
                  let v := 64 * digit_value c + 8 * digit_value d + digit_value e in
                  if 255 <? v then Raise "error" else literal (chr v) t2
                else Raise "error"
            | _ => Raise "error"
            end
          else
            match template_escape c with
            | Some v => literal (chr v) t
            | None =>
                if is_letter c then Raise "error"
                else literal (String "\" (String c "")) t
            end
      | String c t => literal (String c "") t
      end
  end.

Definition expand_template (template : list tpart) (m : rmatch) : string :=
  String.concat ""
    (map (fun p => match p with TText x => x | TMatch => group 0 m end) template).

(** [re.sub(r, repl, s)] with a replacement text, for [r] without groups. *)
Definition sub_template (r : Re.re) (repl s : string) : outcome string :=
  do template <- parse_template (String.length repl) repl;
  Ok (Re.sub r (expand_template template) s).

(** [prefix = str(card_stt) if card_stt else ''] *)
Definition prefix_of (card_stt : Z) : string :=
  if (card_stt =? 0)%Z then "" else str_int card_stt.

(** [f'{prefix}.{n}' if prefix else str(n)] *)
Definition numbered (prefix : string) (n : nat) : string :=
  if is_empty prefix then dec n else prefix ++ "." ++ dec n.

(* ===================================================================== *)
(** ** Math protection *)
(* ===================================================================== *)

(** [_MATH_PLACEHOLDER % i] *)
Definition math_placeholder (i : nat) : string :=
  String nul ("MATH_" ++ dec i ++ String nul "").

(** The cells [store] and [counter] of [protect_math]. *)
Record math_state : Type := MathState {
  store : list string;
  counter : nat
}.

Definition save_as (original : string) (st : math_state) : string * math_state :=
  (math_placeholder (counter st),
   MathState (store st ++ [original]) (counter st + 1)).

Definition save (m : rmatch) (st : math_state) : string * math_state :=
  save_as (group 0 m) st.

(** [s[2:-2]] *)
Definition slice_2_m2 (s : string) : string :=
  take (String.length s - 4) (drop 2 s).

Definition save_display (m : rmatch) (st : math_state) : string * math_state :=
  save_as ("$$" ++ slice_2_m2 (group 0 m) ++ "$$") st.

Definition pat_env_inner : Re.re :=
  Eval vm_compute in Re.parse_dotall "\\begin\{[^}]*\}(.*?)\\end\{[^}]*\}".

Definition save_aligned (m : rmatch) (st : math_state) : string * math_state :=
  let content := group 0 m in
  match Re.search pat_env_inner content with
  | Some (_, inner, _) =>
      save_as ("$$\begin{aligned}" ++ group 1 inner ++ "\end{aligned}$$") st
  | None => save_as ("$$" ++ content ++ "$$") st
  end.

Definition pat_display_dollars : Re.re :=
  Eval vm_compute in Re.parse_dotall "\$\$.*?\$\$".

Definition pat_display_brackets : Re.re :=
  Eval vm_compute in Re.parse_dotall "(?<!\\)\\\[.*?\\\]".

Definition math_envs : list string :=
  ["align"; "align*"; "equation"; "equation*";
   "gather"; "gather*"; "multline"; "multline*"].

Definition pat_math_env (env : string) : Re.re :=
  Re.parse_dotall
    ("\\begin\{" ++ Re.escape env ++ "\}.*?\\end\{" ++ Re.escape env ++ "\}").

Definition pat_inline_math : Re.re :=
  Eval vm_compute in Re.parse "(?<!\$)\$(?!\$)((?:[^$\\]|\\.)+?)\$(?!\$)".

Definition protect_math_st (text : string) : string * math_state :=
  let st := MathState [] 0 in
  let '(text, st) := Re.sub_st pat_display_dollars save text st in
  let '(text, st) := Re.sub_st pat_display_brackets save_display text st in
  let '(text, st) :=
    fold_left (fun '(text, st) env => Re.sub_st (pat_math_env env) save_aligned text st)
              math_envs (text, st) in
  Re.sub_st pat_inline_math save text st.

Definition protect_math (text : string) : string * list string :=
  let '(text, st) := protect_math_st text in (text, store st).

(** [for i, math in enumerate(store): text = text.replace(PH % i, math)] *)
Fixpoint restore_math_from (i : nat) (text : string) (store : list string) : string :=
  match store with
  | [] => text
  | math :: rest =>
      restore_math_from (S i) (replace (math_placeholder i) math text) rest
  end.

Definition restore_math (text : string) (store : list string) : string :=
  restore_math_from 0 text store.

(* ===================================================================== *)
(** ** Comment stripping *)
(* ===================================================================== *)

Definition pat_comment : Re.re :=
  Eval vm_compute in Re.parse "(?<!\\)%.*$".

Definition strip_comments (text : string) : string :=
  join nl (map (Re.sub pat_comment (fun _ => "")) (split "010" text)).

(* ===================================================================== *)
(** ** Environment conversion *)
(* ===================================================================== *)

Definition NUMBERED_CSS : gset string :=
  {[ "env-theorem"; "env-definition"; "env-example" ]}.

(** [label_counters.get(lb, 0)] *)
Definition counter_of (lb : string) (label_counters : gmap string nat) : nat :=
  default 0 (label_counters !! lb).

Definition env_div (cc ts c : string) : string :=
  "<div class=" ++ dq ++ cc ++ dq ++ "><strong>" ++ ts ++ ":</strong><br>"
  ++ nl ++ c ++ nl ++ "</div>".

Definition repl_title (prefix cc lb : string) (sn : bool) (m : rmatch)
    (label_counters : gmap string nat) : string * gmap string nat :=
  let t := strip (group 1 m) in
  let c := strip (group 2 m) in
  if sn then
    let label_counters := <[lb := counter_of lb label_counters + 1]> label_counters in
    let num := numbered prefix (counter_of lb label_counters) in
    let ts := if is_empty t then lb ++ " " ++ num
              else lb ++ " " ++ num ++ " (" ++ t ++ ")" in
    (env_div cc ts c, label_counters)
  else
    let ts := if is_empty t then lb else lb ++ " (" ++ t ++ ")" in
    (env_div cc ts c, label_counters).

Definition repl_no (prefix cc lb : string) (sn : bool) (m : rmatch)
    (label_counters : gmap string nat) : string * gmap string nat :=
  let c := strip (group 1 m) in
  if sn then
    let label_counters := <[lb := counter_of lb label_counters + 1]> label_counters in
    let num := numbered prefix (counter_of lb label_counters) in
    (env_div cc (lb ++ " " ++ num) c, label_counters)
  else
    (env_div cc lb c, label_counters).

Definition pat_title (env_name : string) : Re.re :=
  Re.parse_dotall
    ("\\begin\{" ++ Re.escape env_name ++ "\}\[([^\]]*)\](.*?)\\end\{"
     ++ Re.escape env_name ++ "\}").

Definition pat_no (env_name : string) : Re.re :=
  Re.parse_dotall
    ("\\begin\{" ++ Re.escape env_name ++ "\}(.*?)\\end\{"
     ++ Re.escape env_name ++ "\}").

(** One turn of [for env_name, (css_class, label) in environments.items()]. *)
Definition convert_one_environment (prefix : string)
    (acc : string * gmap string nat) (e : string * (string * string))
  : string * gmap string nat :=
  let '(text, label_counters) := acc in
  let '(env_name, (css_class, label)) := e in
  let should_number := bool_decide (css_class ∈ NUMBERED_CSS) in
  let '(text, label_counters) :=
    Re.sub_st (pat_title env_name) (repl_title prefix css_class label should_number)
              text label_counters in
  Re.sub_st (pat_no env_name) (repl_no prefix css_class label should_number)
            text label_counters.

Definition pat_proof : Re.re :=
  Eval vm_compute in Re.parse_dotall "\\begin\{proof\}(.*?)\\end\{proof\}".

(** [convert_environments], with the final [label_counters] alongside. *)
Definition convert_environments_st (text : string)
    (environments : list (string * (string * string)))
    (proof_label : string) (card_stt : Z) : string * gmap string nat :=
  let prefix := prefix_of card_stt in
  let '(text, label_counters) :=
    fold_left (convert_one_environment prefix) environments (text, ∅) in
  (Re.sub pat_proof
     (fun m => "<div class=" ++ dq ++ "env-proof" ++ dq ++ "><strong>" ++ proof_label
               ++ ":</strong>" ++ "<br>" ++ nl ++ strip (group 1 m) ++ nl ++ "</div>")
     text,
   label_counters).

Definition convert_environments (text : string)
    (environments : list (string * (string * string)))
    (proof_label : string) (card_stt : Z) : string :=
  fst (convert_environments_st text environments proof_label card_stt).

(* ===================================================================== *)
(** ** Table conversion *)
(* ===================================================================== *)

Definition pat_longtable_cmds : Re.re :=
  Eval vm_compute in Re.parse "\\(endfirsthead|endhead|endfoot|endlastfoot)\s*".
Definition pat_rules : Re.re :=
  Eval vm_compute in Re.parse "\\(toprule|midrule|bottomrule|hline)\s*".
Definition pat_caption_ws : Re.re :=
  Eval vm_compute in Re.parse "\\caption\{[^}]*\}\s*".
Definition pat_label_ws : Re.re :=
  Eval vm_compute in Re.parse "\\label\{[^}]*\}\s*".
Definition pat_rowcolor : Re.re :=
  Eval vm_compute in Re.parse "\\rowcolor\{[^}]*\}\s*".
Definition pat_definecolor_ws : Re.re :=
  Eval vm_compute in Re.parse "\\definecolor\{[^}]*\}\{[^}]*\}\{[^}]*\}\s*".
Definition pat_renewcommand_ws : Re.re :=
  Eval vm_compute in Re.parse "\\renewcommand\{[^}]*\}\{[^}]*\}\s*".
Definition pat_textcolor : Re.re :=
  Eval vm_compute in Re.parse "\\textcolor\{[^}]*\}\{((?:[^{}]|\{[^{}]*\})*)\}".
Definition pat_row_sep : Re.re :=
  Eval vm_compute in Re.parse "\\\\(?:\[[^\]]*\])?".

Definition drop_all (r : Re.re) (s : string) : string := Re.sub r (fun _ => "") s.

(** The clean-up of the table body and its split into rows:
    [rows = [r.strip() for r in re.split(...) if r.strip()]]. *)
Definition table_rows (content : string) : list string :=
  let content := strip content in
  let content := drop_all pat_longtable_cmds content in
  let content := drop_all pat_rules content in
  let content := drop_all pat_caption_ws content in
  let content := drop_all pat_label_ws content in
  let content := drop_all pat_rowcolor content in
  let content := drop_all pat_definecolor_ws content in
  let content := drop_all pat_renewcommand_ws content in
  let content := Re.sub pat_textcolor (fun m => group 1 m) content in
  List.filter (fun r => negb (is_empty r)) (map strip (Re.split pat_row_sep content)).

(** [[c.strip() for c in row.split('&')]] *)
Definition row_cells (row : string) : list string := map strip (split "&" row).

(** ['|'.join(c.strip() for c in row.split('&'))] *)
Definition cells_text (row : string) : string := join "|" (row_cells row).

(** The loop that fills [data_rows]; [seen_header] is the cell it keeps. *)
Fixpoint dedup_rows (seen_header : option string) (rows : list string) : list string :=
  match rows with
  | [] => []
  | row :: rest =>
      match seen_header with
      | None => row :: dedup_rows (Some (cells_text row)) rest
      | Some h =>
          if String.eqb (cells_text row) h then dedup_rows seen_header rest
          else row :: dedup_rows seen_header rest
      end
  end.

Definition table_open : string :=
  "<table style=" ++ dq ++ "width:100%;border-collapse:collapse;margin:16px 0;"
  ++ "border-radius:8px;overflow:hidden;"
  ++ "box-shadow:0 1px 4px rgba(0,0,0,0.08);font-size:0.95em;" ++ dq ++ ">" ++ nl.

Definition th_cell (cell : string) : string :=
  "  <th style=" ++ dq ++ "padding:10px 14px;font-weight:700;"
  ++ "background:#1a365d;color:#fff;" ++ dq ++ ">" ++ cell ++ "</th>" ++ nl.

Definition td_cell (border cell : string) : string :=
  "  <td style=" ++ dq ++ "padding:9px 14px;" ++ border ++ dq ++ ">" ++ cell
  ++ "</td>" ++ nl.

(** The HTML of row [i] of [n] data rows. *)
Definition row_html (n i : nat) (row : string) : string :=
  let cells := row_cells row in
  match i with
  | O =>
      "<thead><tr>" ++ nl ++ String.concat "" (map th_cell cells)
      ++ "</tr></thead>" ++ nl ++ "<tbody>" ++ nl
  | _ =>
      let bg := if i mod 2 =? 1 then "#fff" else "#f7fafc" in
      let border := if i <? n - 1 then "border-bottom:1px solid #e2e8f0;" else "" in
      "<tr style=" ++ dq ++ "background:" ++ bg ++ ";" ++ dq ++ ">" ++ nl
      ++ String.concat "" (map (td_cell border) cells) ++ "</tr>" ++ nl
  end.

Fixpoint rows_html (n i : nat) (data_rows : list string) : list string :=
  match data_rows with
  | [] => []
  | row :: rest => row_html n i row :: rows_html n (S i) rest
  end.

(** The rows [_table_repl] renders for a table body. *)
Definition table_data_rows (content : string) : list string :=
  dedup_rows None (table_rows content).

Definition _table_repl (m : rmatch) : string :=
  let rows := table_rows (group 1 m) in
  match rows with
  | [] => ""
  | _ =>
      let data_rows := dedup_rows None rows in
      table_open
      ++ String.concat "" (rows_html (length data_rows) 0 data_rows)
      ++ "</tbody></table>"
  end.

Definition col_spec : string := "\{(?:[^{}]|\{[^{}]*\})*\}".

Definition pat_long : Re.re :=
  Eval vm_compute in
    Re.parse_dotall ("\\begin\{longtable\}" ++ col_spec ++ "(.*?)\\end\{longtable\}").

Definition pat_tab : Re.re :=
  Eval vm_compute in
    Re.parse_dotall ("\\begin\{tabular\}" ++ col_spec ++ "(.*?)\\end\{tabular\}").

Definition convert_tabular (text : string) : string :=
  let text := Re.sub pat_long _table_repl text in
  Re.sub pat_tab _table_repl text.

(* ===================================================================== *)
(** ** List conversion *)
(* ===================================================================== *)

Definition pat_enum_opts : Re.re :=
  Eval vm_compute in Re.parse "\\begin\{enumerate\}\[[^\]]*\]".

Definition pat_innermost_list : Re.re :=
  Eval vm_compute in
    Re.parse_dotall
      ("\\begin\{(itemize|enumerate)\}"
       ++ "((?:(?!\\begin\{(?:itemize|enumerate)\})"
       ++ "(?!\\end\{(?:itemize|enumerate)\}).)*?)"
       ++ "\\end\{\1\}").

Definition pat_item : Re.re := Eval vm_compute in Re.parse "\\item\b".
Definition pat_item_label : Re.re := Eval vm_compute in Re.parse "^\[[^\]]*\]\s*".

(** The [<li>] elements of one list body. *)
Definition list_items (content : string) : list string :=
  flat_map
    (fun item =>
       let item := strip item in
       if is_empty item then []
       else ["<li>" ++ drop_all pat_item_label item ++ "</li>"])
    (Re.split pat_item content).

(** The replacement of one innermost list. *)
Definition list_html (m : rmatch) : string :=
  let tag := if String.eqb (group 1 m) "itemize" then "ul" else "ol" in
  match list_items (group 2 m) with
  | [] => ""
  | html_items =>
      "<" ++ tag ++ ">" ++ nl ++ join nl html_items ++ nl ++ "</" ++ tag ++ ">"
  end.

(** One turn of the loop: [None] is the [break]. *)
Definition convert_lists_step (text : string) : option string :=
  match Re.search pat_innermost_list text with
  | None => None
  | Some (before, m, after) => Some (before ++ list_html m ++ after)
  end.

(** [for _ in range(n): ...] *)
Fixpoint convert_lists_loop (n : nat) (text : string) : string :=
  match n with
  | O => text
  | S n' =>
      match convert_lists_step text with
      | None => text
      | Some text' => convert_lists_loop n' text'
      end
  end.

Definition convert_lists (text : string) : string :=
  let text := Re.sub pat_enum_opts (fun _ => "\begin{enumerate}") text in
  convert_lists_loop 20 text.

(* ===================================================================== *)
(** ** Heading numbering *)
(* ===================================================================== *)

Definition heading_pat : Re.re :=
  Eval vm_compute in
    Re.parse "\\(subsection|subsubsection|paragraph)\*?\{((?:[^{}]|\{[^{}]*\})*)\}".

Definition pat_label_in_title : Re.re := pat_label_ws.

(** The cells [subsec], [subsubsec] and [para]. *)
Record heading_state : Type := HeadingState {
  subsec : nat;
  subsubsec : nat;
  para : nat
}.

(** [f'{prefix}.{rest}' if prefix else rest] *)
Definition with_prefix (prefix rest : string) : string :=
  if is_empty prefix then rest else prefix ++ "." ++ rest.

(** The number a heading of [level] gets, and the cells after it. *)
Definition heading_number (prefix level : string) (st : heading_state)
  : string * heading_state :=
  if String.eqb level "subsection" then
    let st := HeadingState (subsec st + 1) 0 0 in
    (with_prefix prefix (dec (subsec st)), st)
  else if String.eqb level "subsubsection" then
    let st := HeadingState (subsec st) (subsubsec st + 1) 0 in
    (with_prefix prefix (dec (subsec st) ++ "." ++ dec (subsubsec st)), st)
  else
    let st := HeadingState (subsec st) (subsubsec st) (para st + 1) in
    if 0 <? subsubsec st then
      (with_prefix prefix
         (dec (subsec st) ++ "." ++ dec (subsubsec st) ++ "." ++ dec (para st)), st)
    else if 0 <? subsec st then
      (with_prefix prefix (dec (subsec st) ++ "." ++ dec (para st)), st)
    else
      (with_prefix prefix (dec (para st)), st).

Definition heading_tag (level : string) : string :=
  if String.eqb level "subsection" then "h4"
  else if String.eqb level "subsubsection" then "h5"
  else "h6".

Definition heading_repl (prefix : string) (m : rmatch) (st : heading_state)
  : string * heading_state :=
  let level := group 1 m in
  let title := drop_all pat_label_in_title (strip (group 2 m)) in
  let '(num, st) := heading_number prefix level st in
  ("<" ++ heading_tag level ++ ">" ++ num ++ ". " ++ title
   ++ "</" ++ heading_tag level ++ ">", st).

Definition _number_headings (text : string) (card_stt : Z) : string :=
  fst (Re.sub_st heading_pat (heading_repl (prefix_of card_stt)) text
         (HeadingState 0 0 0)).

(* ===================================================================== *)
(** ** Code environments (verbatim, lstlisting, minted) *)
(* ===================================================================== *)

(** [d[key] = value] on a dictionary kept in insertion order. *)
Fixpoint dict_set (key value : string) (d : list (string * string))
  : list (string * string) :=
  match d with
  | [] => [(key, value)]
  | (k, v) :: rest =>
      if String.eqb k key then (k, value) :: rest
      else (k, v) :: dict_set key value rest
  end.

(** The cells [placeholders], [counter] and [listing_counter]. *)
Record code_state : Type := CodeState {
  placeholders : list (string * string);
  code_counter : nat;
  listing_counter : nat
}.

Definition code_key (i : nat) : string := "@@CODE_BLOCK_" ++ dec i ++ "@@".

Definition _placeholder (html : string) (st : code_state) : string * code_state :=
  let key := code_key (code_counter st) in
  (key, CodeState (dict_set key html (placeholders st))
                  (code_counter st + 1) (listing_counter st)).

Definition _escape (s : string) : string :=
  replace ">" "&gt;" (replace "<" "&lt;" (replace "&" "&amp;" s)).

Definition CODE_STYLE : string :=
  "background:#f6f8fa; border:1px solid #e1e4e8; border-radius:6px; "
  ++ "padding:1em; overflow-x:auto; font-size:0.9em; line-height:1.5".

Definition CAP_STYLE : string := "text-align:center;font-size:0.9em;color:#586069".

Definition INLINE_STYLE : string :=
  "background:#f0f0f0; padding:0.15em 0.4em; border-radius:3px; "
  ++ "font-family:monospace; font-size:0.9em".

Definition pat_verbatim : Re.re :=
  Eval vm_compute in Re.parse_dotall "\\begin\{verbatim\}(.*?)\\end\{verbatim\}".
Definition pat_lstlisting : Re.re :=
  Eval vm_compute in
    Re.parse_dotall "\\begin\{lstlisting\}\s*(?:\[([^\]]*)\])?\s*(.*?)\\end\{lstlisting\}".
Definition pat_minted : Re.re :=
  Eval vm_compute in
    Re.parse_dotall
      "\\begin\{minted\}\s*(?:\[([^\]]*)\])?\s*\{(\w+)\}\s*(.*?)\\end\{minted\}".
Definition pat_opt_language : Re.re :=
  Eval vm_compute in Re.parse "language\s*=\s*(\w+)".
Definition pat_opt_caption : Re.re :=
  Eval vm_compute in Re.parse "caption\s*=\s*\{?((?:[^},]|\{[^}]*\})*)".
Definition pat_verb_bar : Re.re := Eval vm_compute in Re.parse "\\verb\|([^|]*)\|".
Definition pat_verb_plus : Re.re := Eval vm_compute in Re.parse "\\verb\+([^+]*)\+".
Definition pat_lstinline_bar : Re.re :=
  Eval vm_compute in Re.parse "\\lstinline\|([^|]*)\|".
Definition pat_lstinline_brace : Re.re :=
  Eval vm_compute in Re.parse "\\lstinline\{([^}]*)\}".
Definition pat_mintinline : Re.re :=
  Eval vm_compute in Re.parse "\\mintinline\{\w+\}\{([^}]*)\}".

Definition _verbatim_repl (m : rmatch) (st : code_state) : string * code_state :=
  let content := _escape (strip (group 1 m)) in
  _placeholder ("<pre style=" ++ dq ++ CODE_STYLE ++ dq ++ "><code>" ++ content
                ++ "</code></pre>") st.

(** The caption option of a listing, [''] when there is none. *)
Definition caption_of (opts : string) : string :=
  match Re.search pat_opt_caption opts with
  | Some (_, cap_m, _) => strip_chars "{}" (strip (group 1 cap_m))
  | None => ""
  end.

(** The numbered caption paragraph; it steps [listing_counter]. *)
Definition listing_caption (prefix caption : string) (st : code_state)
  : string * code_state :=
  if is_empty caption then ("", st)
  else
    let st := CodeState (placeholders st) (code_counter st) (listing_counter st + 1) in
    ("<p style=" ++ dq ++ CAP_STYLE ++ dq ++ ">" ++ "<em>Listing "
     ++ numbered prefix (listing_counter st) ++ ": " ++ caption ++ "</em></p>", st).

Definition lang_badge (lang : string) : string :=
  if is_empty lang then ""
  else "<div style=" ++ dq ++ "text-align:right;font-size:0.8em;color:#6a737d;"
       ++ "margin-bottom:0.3em" ++ dq ++ ">" ++ lang ++ "</div>".

Definition _lst_repl (prefix : string) (m : rmatch) (st : code_state)
  : string * code_state :=
  let opts := group 1 m in
  let content := _escape (strip (group 2 m)) in
  let lang := match Re.search pat_opt_language opts with
              | Some (_, lang_m, _) => group 1 lang_m
              | None => ""
              end in
  let '(cap_html, st) := listing_caption prefix (caption_of opts) st in
  let label := if is_empty lang then ""
               else " data-lang=" ++ dq ++ lang ++ dq in
  _placeholder (lang_badge lang ++ "<pre style=" ++ dq ++ CODE_STYLE ++ dq ++ label
                ++ "><code>" ++ content ++ "</code></pre>" ++ cap_html) st.

Definition _minted_repl (prefix : string) (m : rmatch) (st : code_state)
  : string * code_state :=
  let opts := group 1 m in
  let lang := group 2 m in
  let content := _escape (strip (group 3 m)) in
  let '(cap_html, st) := listing_caption prefix (caption_of opts) st in
  _placeholder (lang_badge lang ++ "<pre style=" ++ dq ++ CODE_STYLE ++ dq
                ++ "><code>" ++ content ++ "</code></pre>" ++ cap_html) st.

Definition inline_code (m : rmatch) : string :=
  "<code style=" ++ dq ++ INLINE_STYLE ++ dq ++ ">" ++ _escape (group 1 m) ++ "</code>".

Definition extract_code_environments (text : string) (card_stt : Z)
  : string * list (string * string) :=
  let prefix := prefix_of card_stt in
  let st := CodeState [] 0 0 in
  let '(text, st) := Re.sub_st pat_verbatim _verbatim_repl text st in
  let '(text, st) := Re.sub_st pat_lstlisting (_lst_repl prefix) text st in
  let '(text, st) := Re.sub_st pat_minted (_minted_repl prefix) text st in
  let text := Re.sub pat_verb_bar inline_code text in
  let text := Re.sub pat_verb_plus inline_code text in
  let text := Re.sub pat_lstinline_bar inline_code text in
  let text := Re.sub pat_lstinline_brace inline_code text in
  let text := Re.sub pat_mintinline inline_code text in
  (text, placeholders st).

(** [for key, html in placeholders.items(): text = text.replace(key, html)] *)
Definition restore_code_placeholders (text : string)
    (placeholders : list (string * string)) : string :=
  fold_left (fun text kv => replace (fst kv) (snd kv) text) placeholders text.

(* ===================================================================== *)
(** ** The world outside the pipeline *)
(* ===================================================================== *)

(** What the pipeline asks of its surroundings and of the parts of the
    program that are not embedded here:
    - the file system, as [os.path.isdir], [os.path.isfile] and the
      base64 text of a file ([None] when reading it raises);
    - the external LaTeX tool chain of the diagram pre-renderer: whether a
      compiler is installed, and the base64 PNG of a standalone document
      ([None] for every failure: time-out, no PDF, no converter, no PNG);
    - the two pseudocode line renderers [_convert_algorithmic_content] and
      [_convert_algorithm2e_content], whose indentation is a floating
      point product;
    - the floating point formatting [f'{float(w) * 100:.0f}'] of a width
      that [float] accepts. *)
Record world : Type := World {
  isdir : string -> bool;
  isfile : string -> bool;
  read_b64 : string -> option string;
  latex_cmd : bool;
  render_png : string -> option string;
  _convert_algorithmic_content : string -> string;
  _convert_algorithm2e_content : string -> string;
  format_pct : string -> string
}.

(* ===================================================================== *)
(** ** Algorithm environments *)
(* ===================================================================== *)

Definition ALGO_STYLE : string :=
  "background:#f8f9fa; border:1px solid #dee2e6; border-radius:6px; "
  ++ "padding:1em; margin:1em 0".
Definition PSEUDO_STYLE : string := "font-size:0.95em; line-height:1.8".

Definition pat_caption_nested : Re.re :=
  Eval vm_compute in Re.parse "\\caption\{((?:[^{}]|\{[^{}]*\})*)\}".
Definition pat_algorithmic : Re.re :=
  Eval vm_compute in
    Re.parse_dotall "\\begin\{algorithmic\}\s*(?:\[\d+\])?\s*(.*?)\\end\{algorithmic\}".
Definition pat_algorithm : Re.re :=
  Eval vm_compute in
    Re.parse_dotall "\\begin\{algorithm\}\s*(?:\[[^\]]*\])?\s*(.*?)\\end\{algorithm\}".
Definition pat_algorithm2e : Re.re :=
  Eval vm_compute in
    Re.parse_dotall "\\begin\{algorithm2e\}\s*(?:\[[^\]]*\])?\s*(.*?)\\end\{algorithm2e\}".

Definition algo_title (num caption : string) : string :=
  "<p style=" ++ dq ++ "font-weight:bold;margin-bottom:0.5em" ++ dq ++ ">"
  ++ "Thuật toán " ++ num
  ++ (if is_empty caption then "" else ": " ++ caption) ++ "</p>".

Definition algo_box (cap_html body_html : string) : string :=
  "<div class=" ++ dq ++ "algorithm-box" ++ dq ++ " style=" ++ dq ++ ALGO_STYLE ++ dq
  ++ ">" ++ nl ++ cap_html ++ nl
  ++ "<div class=" ++ dq ++ "pseudocode" ++ dq ++ " style=" ++ dq ++ PSEUDO_STYLE ++ dq
  ++ ">" ++ nl ++ body_html ++ nl ++ "</div>" ++ nl ++ "</div>".

Definition _algo_repl (w : world) (prefix : string) (m : rmatch) (algo_counter : nat)
  : string * nat :=
  let content := group 1 m in
  let algo_counter := algo_counter + 1 in
  let caption := match Re.search pat_caption_nested content with
                 | Some (_, cap_m, _) => group 1 cap_m
                 | None => ""
                 end in
  let body_html :=
    match Re.search pat_algorithmic content with
    | Some (_, algo_m, _) => _convert_algorithmic_content w (group 1 algo_m)
    | None => _convert_algorithmic_content w content
    end in
  (algo_box (algo_title (numbered prefix algo_counter) caption) body_html, algo_counter).

Definition _standalone_algorithmic (w : world) (prefix : string) (m : rmatch)
    (algo_counter : nat) : string * nat :=
  let algo_counter := algo_counter + 1 in
  let body_html := _convert_algorithmic_content w (group 1 m) in
  (algo_box (algo_title (numbered prefix algo_counter) "") body_html, algo_counter).

Definition _algo2e_repl (w : world) (prefix : string) (m : rmatch) (algo_counter : nat)
  : string * nat :=
  let content := group 1 m in
  let algo_counter := algo_counter + 1 in
  let '(caption, content) :=
    match Re.search pat_caption_nested content with
    | Some (before, cap_m, after) => (group 1 cap_m, before ++ after)
    | None => ("", content)
    end in
  let body_html := _convert_algorithm2e_content w content in
  (algo_box (algo_title (numbered prefix algo_counter) caption) body_html, algo_counter).

Definition convert_algorithm_environments (w : world) (text : string) (card_stt : Z)
  : string :=
  let prefix := prefix_of card_stt in
  let '(text, n) := Re.sub_st pat_algorithm (_algo_repl w prefix) text 0 in
  let '(text, n) := Re.sub_st pat_algorithmic (_standalone_algorithmic w prefix) text n in
  fst (Re.sub_st pat_algorithm2e (_algo2e_repl w prefix) text n).

(* ===================================================================== *)
(** ** TikZ pre-rendering *)
(* ===================================================================== *)

Definition pat_tikzpicture : Re.re :=
  Eval vm_compute in Re.parse_dotall "\\begin\{tikzpicture\}.*?\\end\{tikzpicture\}".
Definition pat_tikzcd : Re.re :=
  Eval vm_compute in Re.parse_dotall "\\begin\{tikzcd\}.*?\\end\{tikzcd\}".

Definition warning_box (message : string) : string :=
  "<div style=" ++ dq ++ "background:#fff3cd;border:1px solid #ffc107;"
  ++ "border-radius:6px;padding:1em;margin:1em 0;text-align:center" ++ dq ++ ">"
  ++ "<em>[" ++ message ++ "]</em></div>".

Definition embedded_png (data alt : string) : string :=
  "<div style=" ++ dq ++ "text-align:center;margin:1em 0" ++ dq ++ ">"
  ++ "<img src=" ++ dq ++ "data:image/png;base64," ++ data ++ dq ++ " "
  ++ "style=" ++ dq ++ "max-width:90%;display:inline-block" ++ dq ++ " "
  ++ "alt=" ++ dq ++ alt ++ dq ++ ">" ++ "</div>".

Definition standalone_doc (packages preamble body : string) : string :=
  "\documentclass[border=5pt]{standalone}" ++ nl
  ++ "\usepackage{fontspec}" ++ nl
  ++ "\usepackage{tikz}" ++ nl
  ++ packages
  ++ "\usepackage{amsmath,amssymb}" ++ nl
  ++ (if is_empty preamble then "" else preamble ++ nl)
  ++ "\begin{document}" ++ nl ++ body ++ nl ++ "\end{document}" ++ nl.

Definition _tikz_repl (w : world) (preamble : string) (m : rmatch) (tikz_counter : nat)
  : string * nat :=
  let tikz_counter := tikz_counter + 1 in
  let doc :=
    standalone_doc
      ("\usetikzlibrary{arrows,arrows.meta,shapes,shapes.geometric,"
       ++ "positioning,calc,decorations.pathreplacing,fit,backgrounds,"
       ++ "matrix,patterns}" ++ nl)
      preamble (group 0 m) in
  match render_png w doc with
  | Some data => (embedded_png data ("TikZ diagram " ++ dec tikz_counter), tikz_counter)
  | None =>
      (warning_box ("TikZ diagram #" ++ dec tikz_counter ++ " — rendering failed"),
       tikz_counter)
  end.

Definition _tikz_repl_cd (w : world) (preamble : string) (m : rmatch) (counter : nat)
  : string * nat :=
  let counter := counter + 1 in
  let doc := standalone_doc ("\usepackage{tikz-cd}" ++ nl) preamble (group 0 m) in
  match render_png w doc with
  | Some data => (embedded_png data ("Commutative diagram " ++ dec counter), counter)
  | None =>
      (warning_box ("Commutative diagram #" ++ dec counter ++ " — rendering failed"),
       counter)
  end.

Definition convert_tikz_environments (w : world) (text preamble_snippet : string)
  : string :=
  if latex_cmd w then
    let '(text, n) := Re.sub_st pat_tikzpicture (_tikz_repl w preamble_snippet) text 0 in
    fst (Re.sub_st pat_tikzcd (_tikz_repl_cd w preamble_snippet) text n)
  else
    Re.sub pat_tikzpicture
      (fun _ => warning_box "TikZ diagram — xelatex/pdflatex not available") text.

(* ===================================================================== *)
(** ** Image conversion *)
(* ===================================================================== *)

(** [l.append(x)] *)
Definition snoc {A : Type} (l : list A) (x : A) : list A := List.app l [x].

(** POSIX [os.path]. *)
Definition is_slash (c : ascii) : bool := Ascii.eqb c "/".

Fixpoint endswith_slash (p : string) : bool :=
  match p with
  | EmptyString => false
  | String c EmptyString => is_slash c
  | String _ t => endswith_slash t
  end.

(** [os.path.join(a, b)] *)
Definition path_join (a b : string) : string :=
  if startswith "/" b then b
  else if is_empty a || endswith_slash a then a ++ b
  else a ++ "/" ++ b.

(** [os.path.dirname(p)] *)
Definition dirname (p : string) : string :=
  let head_rev := lstrip_by (fun c => negb (is_slash c)) (rev p) in
  if is_empty (lstrip_by is_slash head_rev) then rev head_rev
  else rev (lstrip_by is_slash head_rev).

Definition lower_char (c : ascii) : ascii :=
  if between 65 90 c then ascii_of_nat (code c + 32) else c.

Fixpoint lower (s : string) : string :=
  match s with
  | EmptyString => ""
  | String c t => String (lower_char c) (lower t)
  end.

(** [os.path.splitext(p)[1]] *)
Definition splitext_ext (p : string) : string :=
  let base_rev := take (String.length p
                        - String.length (lstrip_by (fun c => negb (is_slash c)) (rev p)))
                       (rev p) in
  let after_dot_rev := lstrip_by (fun c => negb (Ascii.eqb c ".")) base_rev in
  match after_dot_rev with
  | EmptyString => ""
  | String _ stem_rev =>
      if is_empty (lstrip_by (fun c => Ascii.eqb c ".") stem_rev) then ""
      else drop (String.length stem_rev) (rev base_rev)
  end.

(** The argument [images_dir]: [None], one path or a list of paths. *)
Inductive images_dir_arg : Type :=
| NoImagesDir
| OneDir (d : string)
| DirList (ds : list string).

Definition MIME_TYPES : list (string * string) :=
  [(".png", "image/png"); (".jpg", "image/jpeg"); (".jpeg", "image/jpeg");
   (".gif", "image/gif"); (".svg", "image/svg+xml"); (".pdf", "application/pdf")].

Fixpoint dict_get (key : string) (d : list (string * string)) (dflt : string) : string :=
  match d with
  | [] => dflt
  | (k, v) :: rest => if String.eqb k key then v else dict_get key rest dflt
  end.

Definition pat_includegraphics_strip : Re.re :=
  Eval vm_compute in Re.parse "\\includegraphics\s*(?:\[[^\]]*\])?\s*\{[^}]*\}".
Definition pat_includegraphics : Re.re :=
  Eval vm_compute in Re.parse "\\includegraphics\s*(?:\[([^\]]*)\])?\s*\{([^}]*)\}".
Definition pat_width_rel : Re.re :=
  Eval vm_compute in Re.parse "width\s*=\s*([\d.]+)\\(textwidth|linewidth)".
Definition pat_width_abs : Re.re :=
  Eval vm_compute in Re.parse "width\s*=\s*([\d.]+(?:cm|mm|in|pt|em))".

Fixpoint count_char (c : ascii) (s : string) : nat :=
  match s with
  | EmptyString => 0
  | String d t => (if Ascii.eqb c d then 1 else 0) + count_char c t
  end.

(** Whether [float(s)] returns, for [s] made of digits and dots (what
    [[\d.]+] can capture): at most one dot and at least one digit. *)
Definition float_accepts (s : string) : bool :=
  (count_char "." s <=? 1) && (count_char "." s <? String.length s).

(** [style_parts]; [float] raises [ValueError] on a width it refuses. *)
Definition width_styles (w : world) (opts : string) : outcome (list string) :=
  do rel <-
    match Re.search pat_width_rel opts with
    | Some (_, wm, _) =>
        if float_accepts (group 1 wm)
        then Ok ["max-width:" ++ format_pct w (group 1 wm) ++ "%"]
        else Raise "ValueError"
    | None => Ok []
    end;
  match Re.search pat_width_abs opts with
  | Some (_, w2, _) => Ok (snoc rel ("max-width:" ++ group 1 w2))
  | None => Ok rel
  end.

(** One turn of [for d in images_dirs] building [search_dirs]. *)
Definition add_search_dir (acc : list string * gset string) (d : string)
  : list string * gset string :=
  let '(search_dirs, seen) := acc in
  let '(search_dirs, seen) :=
    if negb (is_empty d) && negb (bool_decide (d ∈ seen))
    then (snoc search_dirs d, {[ d ]} ∪ seen)
    else (search_dirs, seen) in
  let parent := if is_empty d then "" else dirname d in
  if negb (is_empty parent) && negb (bool_decide (parent ∈ seen)) then
    fold_left
      (fun '(search_dirs, seen) sub =>
         let sd := path_join parent sub in
         if negb (bool_decide (sd ∈ seen))
         then (snoc search_dirs sd, {[ sd ]} ∪ seen)
         else (search_dirs, seen))
      ["figures"; "fig"; "imgs"]
      (snoc search_dirs parent, {[ parent ]} ∪ seen)
  else (search_dirs, seen).

Definition search_dirs_of (images_dirs : list string) : list string :=
  fst (fold_left add_search_dir images_dirs ([], ∅)).

(** The inner [for ext in ...] of the look-up. *)
Fixpoint first_with_ext (w : world) (candidate : string) (exts : list string)
  : option string :=
  match exts with
  | [] => None
  | ext :: rest =>
      if isfile w (candidate ++ ext) then Some (candidate ++ ext)
      else first_with_ext w candidate rest
  end.

(** The look-up [for d in search_dirs]: the path found, if any. *)
Fixpoint find_image (w : world) (filename : string) (search_dirs : list string)
  : option string :=
  match search_dirs with
  | [] => None
  | d :: rest =>
      if is_empty d || negb (isdir w d) then find_image w filename rest
      else
        let candidate := path_join d filename in
        if isfile w candidate then Some candidate
        else match first_with_ext w candidate [".png"; ".jpg"; ".jpeg"; ".svg"; ".pdf"] with
             | Some p => Some p
             | None => find_image w filename rest
             end
  end.

Definition image_placeholder (kind filename : string) : string :=
  "<p class=" ++ dq ++ "table-caption" ++ dq ++ " style=" ++ dq ++ "text-align:center"
  ++ dq ++ "><em>[" ++ kind ++ ": " ++ filename ++ "]</em></p>".

Definition includegraphics_repl (w : world) (images_dirs : list string) (m : rmatch)
  : outcome string :=
  let opts := group 1 m in
  let filename := strip (group 2 m) in
  do style_parts <- width_styles w opts;
  match find_image w filename (search_dirs_of images_dirs) with
  | None => Ok (image_placeholder "Image" filename)
  | Some img_path =>
      let ext := lower (splitext_ext img_path) in
      let mime := dict_get ext MIME_TYPES "image/png" in
      if String.eqb ext ".pdf" then Ok (image_placeholder "PDF Image" filename)
      else
        match read_b64 w img_path with
        | Some data =>
            let style := match style_parts with
                         | [] => "max-width:80%"
                         | _ => join "; " style_parts
                         end ++ "; display:block; margin:0.8em auto" in
            Ok ("<img src=" ++ dq ++ "data:" ++ mime ++ ";base64," ++ data ++ dq
                ++ " style=" ++ dq ++ style ++ dq ++ " alt=" ++ dq ++ filename ++ dq ++ ">")
        | None => Ok (image_placeholder "Image" filename)
        end
  end.

(** [re.sub] with a callback that may raise: the callbacks run from left
    to right and the first exception ends the pass. *)
Fixpoint sub_raising (f : rmatch -> outcome string)
    (ms : list (string * rmatch)) (tl : string) : outcome string :=
  match ms with
  | [] => Ok tl
  | (g, m) :: ms' =>
      do out <- f m;
      do rest <- sub_raising f ms' tl;
      Ok (g ++ out ++ rest)
  end.

Definition convert_includegraphics (w : world) (text : string)
    (images_dir : images_dir_arg) : outcome string :=
  match images_dir with
  | NoImagesDir => Ok (Re.sub pat_includegraphics_strip (fun _ => "") text)
  | _ =>
      let images_dirs := match images_dir with
                         | OneDir d => [d]
                         | DirList ds => ds
                         | NoImagesDir => []
                         end in
      let '(ms, tl) := Re.finditer pat_includegraphics text in
      sub_raising (includegraphics_repl w images_dirs) ms tl
  end.

(* ===================================================================== *)
(** ** The pipeline *)
(* ===================================================================== *)

(** Text outside ASCII that the pipeline emits, as UTF-8. *)
Definition ldquo : string := utf8 [226; 128; 156].
Definition rdquo : string := utf8 [226; 128; 157].
Definition hellip : string := utf8 [226; 128; 166].
Definition nbsp : string := utf8 [194; 160].
Definition check_mark : string := utf8 [226; 156; 147].

Definition pat_page_breaks : Re.re :=
  Eval vm_compute in Re.parse "\\(newpage|clearpage|cleardoublepage)\b".
Definition pat_label : Re.re := Eval vm_compute in Re.parse "\\label\{[^}]*\}".
Definition pat_texorpdfstring : Re.re :=
  Eval vm_compute in Re.parse "\\texorpdfstring\{([^}]*)\}\{[^}]*\}".
Definition pat_setlength_ws : Re.re :=
  Eval vm_compute in Re.parse "\\setlength\{[^}]*\}\{[^}]*\}\s*".
Definition pat_figure : Re.re :=
  Eval vm_compute in
    Re.parse_dotall "\\begin\{figure\}\s*(?:\[[^\]]*\])?\s*(.*?)\\end\{figure\}".
Definition pat_table : Re.re :=
  Eval vm_compute in
    Re.parse_dotall "\\begin\{table\}\s*(?:\[[^\]]*\])?\s*(.*?)\\end\{table\}".
Definition pat_centering : Re.re := Eval vm_compute in Re.parse "\\centering\s*".
Definition pat_begin_center : Re.re :=
  Eval vm_compute in Re.parse "\\begin\{center\}\s*".
Definition pat_end_center : Re.re :=
  Eval vm_compute in Re.parse "\\end\{center\}\s*".

Definition pat_textbf : Re.re :=
  Eval vm_compute in Re.parse "\\textbf\{((?:[^{}]|\{[^{}]*\})*)\}".
Definition pat_textit : Re.re :=
  Eval vm_compute in Re.parse "\\textit\{((?:[^{}]|\{[^{}]*\})*)\}".
Definition pat_emph : Re.re :=
  Eval vm_compute in Re.parse "\\emph\{((?:[^{}]|\{[^{}]*\})*)\}".
Definition pat_texttt : Re.re :=
  Eval vm_compute in Re.parse "\\texttt\{((?:[^{}]|\{[^{}]*\})*)\}".
Definition pat_textsc : Re.re :=
  Eval vm_compute in Re.parse "\\textsc\{((?:[^{}]|\{[^{}]*\})*)\}".
Definition pat_underline : Re.re :=
  Eval vm_compute in Re.parse "\\underline\{((?:[^{}]|\{[^{}]*\})*)\}".
Definition pat_termfull : Re.re :=
  Eval vm_compute in
    Re.parse ("\\termfull\{((?:[^{}]|\{[^{}]*\})*)\}"
              ++ "\{((?:[^{}]|\{[^{}]*\})*)\}"
              ++ "\{((?:[^{}]|\{[^{}]*\})*)\}").
Definition pat_term : Re.re :=
  Eval vm_compute in
    Re.parse ("\\term\{((?:[^{}]|\{[^{}]*\})*)\}"
              ++ "\{((?:[^{}]|\{[^{}]*\})*)\}").
Definition pat_termshort : Re.re :=
  Eval vm_compute in Re.parse "\\termshort\{((?:[^{}]|\{[^{}]*\})*)\}".
Definition pat_cite : Re.re := Eval vm_compute in Re.parse "\\cite\{([^}]*)\}".
Definition pat_cref : Re.re := Eval vm_compute in Re.parse "\\[cC]ref\{[^}]*\}".
Definition pat_eqref : Re.re := Eval vm_compute in Re.parse "\\eqref\{[^}]*\}".
Definition pat_ref : Re.re := Eval vm_compute in Re.parse "\\ref\{[^}]*\}".
Definition pat_footnote : Re.re :=
  Eval vm_compute in Re.parse "\\footnote\{((?:[^{}]|\{[^{}]*\})*)\}".
Definition pat_url : Re.re := Eval vm_compute in Re.parse "\\url\{([^}]*)\}".
Definition pat_href : Re.re :=
  Eval vm_compute in Re.parse "\\href\{([^}]*)\}\{([^}]*)\}".
Definition pat_levels : Re.re :=
  Eval vm_compute in Re.parse "\\(levelone|leveltwo|levelthree)\b".
Definition pat_spacing_arg : Re.re :=
  Eval vm_compute in Re.parse "\\(vspace|hspace|bigskip|medskip|smallskip)\*?\{[^}]*\}".
Definition pat_spacing : Re.re :=
  Eval vm_compute in Re.parse "\\(vspace|hspace|bigskip|medskip|smallskip)\b".
Definition pat_indent : Re.re := Eval vm_compute in Re.parse "\\(noindent|indent)\b".
Definition pat_phantom : Re.re :=
  Eval vm_compute in Re.parse "\\(phantom|hphantom|vphantom)\{[^}]*\}".
Definition pat_renewcommand : Re.re :=
  Eval vm_compute in Re.parse "\\renewcommand\{[^}]*\}\{[^}]*\}".
Definition pat_setlength : Re.re :=
  Eval vm_compute in Re.parse "\\setlength\{[^}]*\}\{[^}]*\}".
Definition pat_backticks : Re.re := Eval vm_compute in Re.parse "``".
Definition pat_quotes : Re.re := Eval vm_compute in Re.parse "''".
Definition pat_thin_space : Re.re := Eval vm_compute in Re.parse "\\,".
Definition pat_blank_line : Re.re := Eval vm_compute in Re.parse "\n\s*\n".
Definition pat_many_newlines : Re.re := Eval vm_compute in Re.parse "\n{3,}".

(** The caption of a float gets its number: [_figure_repl] and
    [_table_env_repl], with the word [Hình] or [Bảng]. *)
Definition float_number (card_stt float_counter : Z) : string :=
  if (card_stt =? 0)%Z then str_int float_counter
  else str_int card_stt ++ "." ++ str_int float_counter.

(** The body of a float whose counter stands at [float_counter]. *)
Definition float_body (word : string) (card_stt float_counter : Z) (m : rmatch) : string :=
  Re.sub1 pat_caption_nested
    (fun cm => "\caption{" ++ word ++ " " ++ float_number card_stt float_counter ++ ": "
               ++ group 1 cm ++ "}")
    (group 1 m).

Definition float_repl (word : string) (card_stt : Z) (m : rmatch) (float_counter : Z)
  : string * Z :=
  let float_counter := (float_counter + 1)%Z in
  (float_body word card_stt float_counter m, float_counter).

Definition _figure_repl : Z -> rmatch -> Z -> string * Z := float_repl "Hình".
Definition _table_env_repl : Z -> rmatch -> Z -> string * Z := float_repl "Bảng".

(** The text styling passes, run three times. *)
Definition text_formatting (text : string) : string :=
  let text := Re.sub pat_textbf (fun m => "<strong>" ++ group 1 m ++ "</strong>") text in
  let text := Re.sub pat_textit (fun m => "<em>" ++ group 1 m ++ "</em>") text in
  let text := Re.sub pat_emph (fun m => "<em>" ++ group 1 m ++ "</em>") text in
  let text := Re.sub pat_texttt (fun m => "<code>" ++ group 1 m ++ "</code>") text in
  let text := Re.sub pat_textsc (fun m => group 1 m) text in
  Re.sub pat_underline (fun m => "<u>" ++ group 1 m ++ "</u>") text.

Definition link (href body : string) : string :=
  "<a href=" ++ dq ++ href ++ dq ++ " target=" ++ dq ++ "_blank" ++ dq ++ ">"
  ++ body ++ "</a>".

(** Glossary terms, citations, references, footnotes, links and the
    removal of spacing commands.  [cross_ref_text] is the one replacement
    that the caller supplies, and [re.sub] reads it as a template. *)
Definition inline_commands (cross_ref_text text : string) : outcome string :=
  let text := Re.sub pat_termfull
                (fun m => "<strong>" ++ group 1 m ++ "</strong> (<em>" ++ group 2 m
                          ++ "</em>): " ++ group 3 m) text in
  let text := Re.sub pat_term
                (fun m => "<strong>" ++ group 1 m ++ "</strong> (<em>" ++ group 2 m
                          ++ "</em>)") text in
  let text := Re.sub pat_termshort
                (fun m => "<strong>" ++ group 1 m ++ "</strong>") text in
  let text := Re.sub pat_cite
                (fun m => "<span class=" ++ dq ++ "cite" ++ dq ++ ">["
                          ++ join ", " (map strip (split "," (group 1 m)))
                          ++ "]</span>") text in
  do text <- sub_template pat_cref cross_ref_text text;
  let text := Re.sub pat_eqref (fun _ => "(PT)") text in
  let text := Re.sub pat_ref (fun _ => "(?)") text in
  let text := Re.sub pat_footnote (fun m => " (" ++ group 1 m ++ ")") text in
  let text := Re.sub pat_url (fun m => link (group 1 m) (group 1 m)) text in
  let text := Re.sub pat_href (fun m => link (group 1 m) (group 2 m)) text in
  let text := drop_all pat_levels text in
  let text := drop_all pat_spacing_arg text in
  let text := drop_all pat_spacing text in
  let text := drop_all pat_indent text in
  let text := drop_all pat_phantom text in
  let text := drop_all pat_renewcommand text in
  Ok (drop_all pat_setlength text).

Definition special_characters (text : string) : string :=
  let text := replace "\&" "&amp;" text in
  let text := replace "\%" "%" text in
  let text := replace "\_" "_" text in
  let text := replace "\#" "#" text in
  let text := replace "---" "&mdash;" text in
  let text := replace "--" "&ndash;" text in
  let text := Re.sub pat_backticks (fun _ => ldquo) text in
  let text := Re.sub pat_quotes (fun _ => rdquo) text in
  let text := replace "\ldots" hellip text in
  let text := replace "\dots" hellip text in
  let text := replace "\colon" ":" text in
  let text := replace "\quad" " " text in
  let text := replace "\qquad" "  " text in
  let text := Re.sub pat_thin_space (fun _ => " ") text in
  let text := replace "~" nbsp text in
  replace "\checkmark" check_mark text.

Definition block_tags : list string :=
  ["<div"; "<h4"; "<h5"; "<h6"; "<ul"; "<ol"; "<table"; "<pre"; "$$"; "<br";
   "@@CODE_BLOCK_"].
Definition inline_block_tags : list string :=
  ["<div"; "<h4"; "<h5"; "<h6"; "<table"; "<pre"; "@@CODE_BLOCK_"].

Definition wrap_paragraphs (text : string) : string :=
  join (nl ++ nl)
    (flat_map
       (fun block =>
          let block := strip block in
          if is_empty block then []
          else if existsb (fun t => startswith t block) block_tags then [block]
          else if existsb (fun t => contains t block) inline_block_tags then [block]
          else ["<p>" ++ block ++ "</p>"])
       (Re.split pat_blank_line text)).

(** The passes from the start of [latex_to_html] up to math protection:
    the text handed to [protect_math] and the code placeholders. *)
Definition before_math (w : world) (tex_content : string) (card_stt : Z)
    (tikz_preamble : string) : string * list (string * string) :=
  let text := strip_comments tex_content in
  let '(text, code_placeholders) := extract_code_environments text card_stt in
  let text := convert_tikz_environments w text tikz_preamble in
  let text := drop_all pat_page_breaks text in
  let text := drop_all pat_label text in
  let text := Re.sub pat_texorpdfstring (fun m => group 1 m) text in
  let text := drop_all pat_definecolor_ws text in
  let text := drop_all pat_renewcommand_ws text in
  let text := drop_all pat_setlength_ws text in
  (text, code_placeholders).

(** The passes between math protection and the numbering of floats. *)
Definition before_floats (w : world) (text : string)
    (environments : list (string * (string * string))) (proof_label : string)
    (card_stt : Z) : string :=
  let text := convert_algorithm_environments w text card_stt in
  convert_environments text environments proof_label card_stt.

(** The passes after the numbering of floats, up to paragraph wrapping. *)
Definition after_floats (w : world) (text cross_ref_text : string)
    (images_dir : images_dir_arg) (card_stt : Z) : outcome string :=
  let text := drop_all pat_centering text in
  let text := Re.sub pat_caption_nested
                (fun m => "<p class=" ++ dq ++ "table-caption" ++ dq ++ " style=" ++ dq
                          ++ "text-align:center" ++ dq ++ "><em>" ++ group 1 m
                          ++ "</em></p>") text in
  do text <- convert_includegraphics w text images_dir;
  let text := convert_tabular text in
  let text := drop_all pat_begin_center text in
  let text := drop_all pat_end_center text in
  let text := convert_lists text in
  let text := _number_headings text card_stt in
  let text := text_formatting (text_formatting (text_formatting text)) in
  do text <- inline_commands cross_ref_text text;
  let text := special_characters text in
  Ok (wrap_paragraphs text).

Definition DEFAULT_ENVIRONMENTS : list (string * (string * string)) :=
  [("dinhly", ("env-theorem", "Dinh ly"));
   ("bode", ("env-theorem", "Bo de"));
   ("menhde", ("env-theorem", "Menh de"));
   ("hequa", ("env-theorem", "He qua"));
   ("dinhri", ("env-theorem", "Dinh ly"));
   ("giaithiet", ("env-theorem", "Gia thiet"));
   ("phongdoan", ("env-theorem", "Phong doan"));
   ("vidu", ("env-example", "Vi du"));
   ("baitap", ("env-example", "Bai tap"));
   ("trucgiac", ("box-green", "Truc giac"));
   ("chungminhsocap", ("env-proof", "Chung minh"));
   ("chungminhnangcao", ("box-yellow", "Chung minh (nang cao)"));
   ("phachoa", ("box-red", "Phac hoa"));
   ("giaithoai", ("box-purple", "Giai thoai"));
   ("luuy", ("box-yellow", "Luu y"));
   ("tomtat", ("box-gray", "Tom tat"));
   ("thuatngu", ("box-teal", "Thuat ngu"));
   ("theorem", ("env-theorem", "Theorem"));
   ("lemma", ("env-theorem", "Lemma"));
   ("proposition", ("env-theorem", "Proposition"));
   ("corollary", ("env-theorem", "Corollary"));
   ("definition", ("env-theorem", "Definition"));
   ("conjecture", ("env-theorem", "Conjecture"));
   ("example", ("env-example", "Example"));
   ("exercise", ("env-example", "Exercise"));
   ("remark", ("box-yellow", "Remark"));
   ("note", ("box-yellow", "Note"))].

(** The arguments of [latex_to_html] other than the text and the two
    counters ([chapter_num] and [root_dir] are not read by the passes
    embedded here). *)
Record options : Type := Options {
  environments : list (string * (string * string));
  proof_label : string;
  cross_ref_text : string;
  images_dir : images_dir_arg;
  card_stt : Z;
  tikz_preamble : string
}.

Definition default_options : options :=
  Options DEFAULT_ENVIRONMENTS "Proof" "(see related section)" NoImagesDir 0 "".

(** [latex_to_html].  The counters [figure_counter] and [table_counter]
    are one-element lists the caller owns, or [None]; the function is
    given the number in each and returns, with the HTML, the number it
    leaves there. *)
Definition latex_to_html (w : world) (tex_content : string) (o : options)
    (figure_counter table_counter : option Z) : outcome (string * Z * Z) :=
  let '(text, code_placeholders) :=
    before_math w tex_content (card_stt o) (tikz_preamble o) in
  let '(text, math_store) := protect_math text in
  let text := before_floats w text (environments o) (proof_label o) (card_stt o) in
  let figure_counter := default 0%Z figure_counter in
  let table_counter := default 0%Z table_counter in
  let '(text, figure_counter) :=
    Re.sub_st pat_figure (_figure_repl (card_stt o)) text figure_counter in
  let '(text, table_counter) :=
    Re.sub_st pat_table (_table_env_repl (card_stt o)) text table_counter in
  do text <- after_floats w text (cross_ref_text o) (images_dir o) (card_stt o);
  let text := restore_math text math_store in
  let text := restore_code_placeholders text code_placeholders in
  let text := Re.sub pat_many_newlines (fun _ => nl ++ nl) text in
  Ok (strip text, figure_counter, table_counter).

(** The loop of [process_chapter] over the sections of one chapter, each
    given with the options of its card: the two counters start at 0 and
    are shared by all the calls. *)
Fixpoint process_sections (w : world) (sections : list (options * string))
    (figure_counter table_counter : Z) : outcome (list string * Z * Z) :=
  match sections with
  | [] => Ok ([], figure_counter, table_counter)
  | (o, content) :: rest =>
      do (html, figure_counter, table_counter) <-
        latex_to_html w content o (Some figure_counter) (Some table_counter);
      do (htmls, figure_counter, table_counter) <-
        process_sections w rest figure_counter table_counter;
      Ok (html :: htmls, figure_counter, table_counter)
  end.

Definition process_chapter (w : world) (sections : list (options * string))
  : outcome (list string) :=
  do (htmls, _, _) <- process_sections w sections 0 0;
  Ok htmls.

(** A world with an empty file system and no LaTeX tool chain.  Its
    pseudocode renderers and its width formatter hand their argument back;
    they are reached only by text with an algorithm environment or an
    image width. *)
Definition bare_world : world :=
  World (fun _ => false) (fun _ => false) (fun _ => None) false (fun _ => None)
        (fun s => s) (fun s => s) (fun s => s).

(** The output of a pass, from the matches [ms] and the text [tl] after
    the last one: the text between the matches is kept and match number
    [k] is replaced by [f k m]. *)
Fixpoint weave (f : nat -> rmatch -> string) (k : nat)
    (ms : list (string * rmatch)) (tl : string) : string :=
  match ms with
  | [] => tl
  | (g, m) :: ms' => g ++ f k m ++ weave f (S k) ms' tl
  end.



(** ** Definitions used by the statements *)




(** The text [latex_to_html] hands to the pass that numbers figures. *)
Definition float_stage (w : world) (tex_content : string) (o : options) : string :=
  let '(text, _) := before_math w tex_content (card_stt o) (tikz_preamble o) in
  let '(text, _) := protect_math text in
  before_floats w text (environments o) (proof_label o) (card_stt o).

(** The [figure] environments one call numbers, and then the [table]
    environments, when the figure counter stood at [figure_counter]. *)
Definition figure_envs (w : world) (tex_content : string) (o : options)
  : list (string * rmatch) :=
  fst (Re.finditer pat_figure (float_stage w tex_content o)).

Definition table_envs (w : world) (tex_content : string) (o : options)
    (figure_counter : Z) : list (string * rmatch) :=
  fst (Re.finditer pat_table
         (fst (Re.sub_st pat_figure (_figure_repl (card_stt o))
                 (float_stage w tex_content o) figure_counter))).

(** [label_counters] after [n] numbered environments of label [lb]. *)
Definition advance (lb : string) (n : nat) (label_counters : gmap string nat)
  : gmap string nat :=
  Nat.iter n (fun lc => <[lb := counter_of lb lc + 1]> lc) label_counters.

Definition options_8 : options :=
  Options DEFAULT_ENVIRONMENTS "Proof" "(see related section)" NoImagesDir 8 "".

(** The block an environment becomes: its heading in bold, a line
    break, and its body. *)
Definition env_block (cc heading body : string) : string :=
  "<div class=" ++ dq ++ cc ++ dq ++ "><strong>" ++ heading ++ ":</strong><br>"
  ++ nl ++ body ++ nl ++ "</div>".

(** The heading of an environment: the label, the number when the
    environment is numbered, and the title in brackets when there is
    one. *)
Definition env_heading (prefix lb : string) (n : option nat) (title : string) : string :=
  lb
  ++ match n with
     | Some n => " " ++ (if is_empty prefix then dec n else prefix ++ "." ++ dec n)
     | None => ""
     end
  ++ (if is_empty title then "" else " (" ++ title ++ ")").

(** The replacement of an environment with a title, numbered [n] when
    [n] is given. *)
Definition titled_div (prefix cc lb : string) (n : option nat) (m : rmatch) : string :=
  env_block cc (env_heading prefix lb n (strip (group 1 m))) (strip (group 2 m)).

(** The replacement of an environment without a title. *)
Definition plain_div (prefix cc lb : string) (n : option nat) (m : rmatch) : string :=
  env_block cc (env_heading prefix lb n "") (strip (group 1 m)).

(** The number of environments one turn of the loop of
    [convert_environments] converts: those with a title and then, in the
    text the first pass leaves, those without. *)
Definition turn_count (prefix : string) (acc : string * gmap string nat)
    (e : string * (string * string)) : nat :=
  let '(text, label_counters) := acc in
  let '(env_name, (css_class, label)) := e in
  let should_number := bool_decide (css_class ∈ NUMBERED_CSS) in
  length (fst (Re.finditer (pat_title env_name) text))
  + length (fst (Re.finditer (pat_no env_name)
                   (fst (Re.sub_st (pat_title env_name)
                           (repl_title prefix css_class label should_number)
                           text label_counters)))).

(** The number of environments that the turns over [envs], started at
    [acc], number under the label [lb]. *)
Fixpoint numbered_under (lb prefix : string) (acc : string * gmap string nat)
    (envs : list (string * (string * string))) : nat :=
  match envs with
  | [] => 0
  | e :: rest =>
      (if bool_decide (fst (snd e) ∈ NUMBERED_CSS) && String.eqb (snd (snd e)) lb
       then turn_count prefix acc e else 0)
      + numbered_under lb prefix (convert_one_environment prefix acc e) rest
  end.

Definition theorem_and_definition : string :=
  "\begin{theorem}A\end{theorem} \begin{definition}B\end{definition}".

(** Environments of two names with one label, two of them with a title,
    a box and a proof. *)
Definition mixed_environments : string :=
  "\begin{dinhri}R\end{dinhri} \begin{dinhly}A\end{dinhly} "
  ++ "\begin{dinhly}[T] B \end{dinhly} \begin{luuy}[N]C\end{luuy} "
  ++ "\begin{dinhri}[U]D\end{dinhri} \begin{proof}P\end{proof}".











Definition code_pre (content : string) : string :=
  "<pre style=" ++ dq ++ CODE_STYLE ++ dq ++ "><code>" ++ content ++ "</code></pre>".





(** *** What a successful match says

    [den r s w s1]: the expression [r] can take the match state [s] to
    [s1], consuming the text [w].  Every way [Re.mt] succeeds is one of
    these (lemma [mt_den]), and where there is one the matcher succeeds
    (lemma [den_mt], for expressions that repeat no empty match); the
    order in which the ways are tried is not part of it. *)
Fixpoint den_iter (R : Re.mstate -> string -> Re.mstate -> Prop) (n : nat)
    (s : Re.mstate) (w : string) (s1 : Re.mstate) : Prop :=
  match n with
  | O => w = "" /\ s1 = s
  | S n' => exists s' u v, w = u ++ v /\ R s u s' /\ den_iter R n' s' v s1
  end.

Definition one_char (p : ascii -> bool) (s : Re.mstate) (w : string) (s1 : Re.mstate)
  : Prop :=
  exists d, p d = true /\ w = String d ""
            /\ Re.ms_rest s = String d (Re.ms_rest s1)
            /\ s1 = Re.MS (Some d) (Re.ms_rest s1) (Re.ms_caps s).

Fixpoint den (r : Re.re) (s : Re.mstate) (w : string) (s1 : Re.mstate) : Prop :=
  match r with
  | Re.Eps => w = "" /\ s1 = s
  | Re.Lit c => one_char (fun d => Ascii.eqb d c) s w s1
  | Re.Any dotall => one_char (fun d => dotall || negb (Ascii.eqb d "010")) s w s1
  | Re.Cls neg items => one_char (Re.cls_has neg items) s w s1
  | Re.Seq a b => exists s' u v, w = u ++ v /\ den a s u s' /\ den b s' v s1
  | Re.Alt a b => den a s w s1 \/ den b s w s1
  | Re.Rep _ lo hi a =>
      exists n, lo <= n /\ (forall h, hi = Some h -> n <= h) /\ den_iter (den a) n s w s1
  | Re.Grp i a =>
      exists s', den a s w s'
                 /\ s1 = Re.MS (Re.ms_prev s') (Re.ms_rest s') ((i, w) :: Re.ms_caps s')
  | Re.Bref i =>
      Re.cap_get i (Re.ms_caps s) = Some w
      /\ Re.ms_rest s = w ++ Re.ms_rest s1
      /\ Re.ms_caps s1 = Re.ms_caps s
      /\ Re.ms_prev s1 = Re.last_char (Re.ms_prev s) w
  | Re.Ahead neg a =>
      w = "" /\ s1 = s
      /\ (if neg then Re.mt a s Some = None else Re.mt a s Some <> None)
  | Re.Behind neg a =>
      w = "" /\ s1 = s
      /\ match Re.ms_prev s with
         | Some c =>
             let behind :=
               Re.mt a (Re.MS None (String c "") [])
                 (fun s1 => if is_empty (Re.ms_rest s1) then Some s1 else None) in
             if neg then behind = None else behind <> None
         | None => neg = true
         end
  | Re.Bol => w = "" /\ s1 = s /\ Re.ms_prev s = None
  | Re.Eol => w = "" /\ s1 = s /\ (Re.ms_rest s = "" \/ Re.ms_rest s = nl)
  | Re.Wordb =>
      w = "" /\ s1 = s
      /\ xorb (Re.word_at (Re.ms_prev s)) (Re.word_at (Re.next_char (Re.ms_rest s))) = true
  | Re.Never => False
  end.




(** The match state a text away from the position. *)
Definition ahead (p : option ascii) (w t : string) (caps : list (nat * string))
  : Re.mstate :=
  Re.MS (Re.last_char p w) t caps.

(** Expressions every match of which takes at least one character. *)
Fixpoint consuming (r : Re.re) : bool :=
  match r with
  | Re.Lit _ | Re.Any _ | Re.Cls _ _ => true
  | Re.Seq a b => consuming a || consuming b
  | Re.Alt a b => consuming a && consuming b
  | Re.Rep _ lo _ a => (0 <? lo) && consuming a
  | Re.Grp _ a => consuming a
  | _ => false
  end.

(** Expressions that repeat only expressions whose matches take at least
    one character (the ones [Re.mt] is written for). *)
Fixpoint steady (r : Re.re) : bool :=
  match r with
  | Re.Seq a b | Re.Alt a b => steady a && steady b
  | Re.Rep _ _ _ a => steady a && consuming a
  | Re.Grp _ a => steady a
  | _ => true
  end.


(** The matches of a scan were each found by one attempt of the matcher. *)
Definition found_by (r : Re.re) (gm : string * rmatch) : Prop :=
  exists prev s adv, Re.exec r prev s adv = Some (snd gm).


(** The expression that matches the text [w] and then [k]. *)
Fixpoint lits (w : string) (k : Re.re) : Re.re :=
  match w with
  | EmptyString => k
  | String c t => Re.Seq (Re.Lit c) (lits t k)
  end.

(** Expressions without a capturing group. *)
Fixpoint no_grp (r : Re.re) : bool :=
  match r with
  | Re.Seq a b | Re.Alt a b => no_grp a && no_grp b
  | Re.Rep _ _ _ a => no_grp a
  | Re.Grp _ _ => false
  | _ => true
  end.






(** The begin and end marks of the two list environments. *)
Definition list_markers : list string :=
  ["\begin{itemize}"; "\begin{enumerate}"; "\end{itemize}"; "\end{enumerate}"].

(** A list body with no list inside it. *)
Definition innermost (content : string) : bool :=
  forallb (fun mark => negb (contains mark content)) list_markers.

(** A list environment as [convert_lists] recognises it: group 1 is its
    name and group 2 its body. *)
Definition list_env (m : rmatch) : Prop :=
  (group 1 m = "itemize" \/ group 1 m = "enumerate")
  /\ Re.m_all m = "\begin{" ++ group 1 m ++ "}" ++ group 2 m
                  ++ "\end{" ++ group 1 m ++ "}".

(** The two list environments. *)
Definition list_tag (tag : string) : Prop := tag = "itemize" \/ tag = "enumerate".

(** A list environment, as text. *)
Definition list_text (tag body : string) : string :=
  "\begin{" ++ tag ++ "}" ++ body ++ "\end{" ++ tag ++ "}".

(** In the text [t] a list environment with no list inside it stands
    between [before] and [after]. *)
Definition innermost_at (t before tag body after : string) : Prop :=
  t = before ++ list_text tag body ++ after /\ list_tag tag /\ innermost body = true.

(** The HTML list of a list environment with the elements [items]: a
    bullet list for [itemize], a numbered list for [enumerate], nothing
    for a list without elements. *)
Definition html_list (tag : string) (items : list string) : string :=
  match items with
  | [] => ""
  | _ =>
      if String.eqb tag "itemize"
      then "<ul>" ++ nl ++ join nl items ++ nl ++ "</ul>"
      else "<ol>" ++ nl ++ join nl items ++ nl ++ "</ol>"
  end.

(** [rewrites n t t']: [n] turns of the loop of [convert_lists] take the
    text [t] to [t'], each turn replacing the leftmost list environment
    that has no list inside it by its HTML list. *)
Inductive rewrites : nat -> string -> string -> Prop :=
| rewrites_none (t : string) : rewrites 0 t t
| rewrites_one (n : nat) (t before tag body after t' : string) :
    innermost_at t before tag body after ->
    (forall before' tag' body' after',
        innermost_at t before' tag' body' after' ->
        String.length before <= String.length before') ->
    rewrites n (before ++ html_list tag (list_items body) ++ after) t' ->
    rewrites (S n) t t'.

Definition ahead_begin : Re.re :=
  Eval vm_compute in Re.parse_dotall "\\begin\{(?:itemize|enumerate)\}".
Definition ahead_end : Re.re :=
  Eval vm_compute in Re.parse_dotall "\\end\{(?:itemize|enumerate)\}".

(** One character of a list body: neither mark starts at it. *)
Definition tempered_char : Re.re :=
  Re.Seq (Re.Ahead true ahead_begin) (Re.Seq (Re.Ahead true ahead_end) (Re.Any true)).

(** Twenty-one lists side by side. *)
Definition one_list : string := "\begin{itemize}\item a\end{itemize}".
Definition many_lists (n : nat) : string := String.concat "" (repeat one_list n).

(** A numbered list with a bullet list in its second element. *)
Definition nested_lists : string :=
  "\begin{enumerate}" ++ nl
  ++ "\item one" ++ nl
  ++ "\item two \begin{itemize}\item[-] a\item b\end{itemize}" ++ nl
  ++ "\end{enumerate}".

(** The inputs of the worked examples. *)
Definition equation_with_label : string := "\begin{equation}a\label{e}\end{equation}".

Definition verbatim_with_percent : string :=
  "\begin{verbatim}" ++ nl ++ "a % b" ++ nl ++ "\end{verbatim}".

Definition verbatim_with_blank_lines : string :=
  "\begin{verbatim}" ++ nl ++ "a" ++ nl ++ nl ++ nl ++ "b" ++ nl ++ "\end{verbatim}".

Definition listing_with_textbf : string :=
  "\begin{lstlisting}" ++ nl ++ "\textbf{x} <b> & c" ++ nl ++ "\end{lstlisting}".

Definition image_with_bad_width : string :=
  "\includegraphics[width=0..5\textwidth]{missing.png}".

Definition two_sections : list (options * string) :=
  [(options_8, "\begin{figure}\caption{A}\end{figure}\begin{figure}\caption{B}\end{figure}");
   (Options DEFAULT_ENVIRONMENTS "Proof" "(see related section)" NoImagesDir 9 "",
    "\begin{figure}\caption{C}\end{figure}\begin{table}\caption{T}\end{table}")].

Definition caption_p (text : string) : string :=
  "<p class=" ++ dq ++ "table-caption" ++ dq ++ " style=" ++ dq ++ "text-align:center"
  ++ dq ++ "><em>" ++ text ++ "</em></p>".





(* ===================================================================== *)
(** * Properties *)
(* ===================================================================== *)

(** ** Strings *)

Lemma append_nil_r (s : string) : s ++ "" = s.
Proof. induction s as [|c s IH]; simpl; [reflexivity | now rewrite IH]. Qed.

Lemma append_assoc (a b c : string) : (a ++ b) ++ c = a ++ b ++ c.
Proof. induction a as [|x a IH]; simpl; [reflexivity | now rewrite IH]. Qed.

Lemma length_append (a b : string) :
  String.length (a ++ b) = String.length a + String.length b.
Proof. induction a as [|x a IH]; simpl; [reflexivity | now rewrite IH]. Qed.

Lemma startswith_refl_app (p s : string) : startswith p (p ++ s) = true.
Proof.
  induction p as [|c p IH]; simpl; [reflexivity |].
  now rewrite Ascii.eqb_refl, IH.
Qed.


Lemma startswith_spec (p s : string) :
  startswith p s = true <-> exists t, s = p ++ t.
Proof.
  split.
  - revert s. induction p as [|c p IH]; intros s H; simpl in *.
    + now exists s.
    + destruct s as [|d s]; [discriminate |].
      apply andb_prop in H as [H1 H2]. apply Ascii.eqb_eq in H1. subst d.
      destruct (IH _ H2) as [t ->]. now exists t.
  - intros [t ->]. apply startswith_refl_app.
Qed.

Lemma take_drop (n : nat) (s : string) : take n s ++ drop n s = s.
Proof.
  revert s. induction n as [|n IH]; intros [|c s]; simpl; try reflexivity.
  now rewrite IH.
Qed.

Lemma take_app_length (a b : string) : take (String.length a) (a ++ b) = a.
Proof. induction a as [|c a IH]; simpl; [now destruct b | now rewrite IH]. Qed.

Lemma drop_app_length (a b : string) : drop (String.length a) (a ++ b) = b.
Proof. induction a as [|c a IH]; simpl; [now destruct b | exact IH]. Qed.

(** ** Passes with a counter *)

Lemma sub_fold_weave {St : Type} (cb : rmatch -> St -> string * St)
    (out : St -> rmatch -> string) (next : St -> St) :
  (forall m st, cb m st = (out st m, next st)) ->
  forall ms tl st,
    Re.sub_fold cb ms tl st
    = (weave (fun k m => out (Nat.iter k next st) m) 0 ms tl,
       Nat.iter (length ms) next st).
Proof.
  intros Hcb ms tl.
  assert (G : forall ms st j,
             Re.sub_fold cb ms tl (Nat.iter j next st)
             = (weave (fun k m => out (Nat.iter k next st) m) j ms tl,
                Nat.iter (length ms + j) next st)).
  { clear ms. induction ms as [|[g m] ms IH]; intros st j; simpl.
    - reflexivity.
    - rewrite Hcb.
      change (next (Nat.iter j next st)) with (Nat.iter (S j) next st).
      rewrite IH. replace (length ms + S j) with (S (length ms + j)) by lia.
      reflexivity. }
  intros st. specialize (G ms st 0). simpl in G. rewrite G.
  now rewrite Nat.add_0_r.
Qed.

(** ** Decimal numerals *)

Lemma to_uint_nonnil (n : nat) : Nat.to_uint n <> Decimal.Nil.
Proof.
  rewrite <- (DecimalNat.Unsigned.of_to n) at 1.
  rewrite DecimalNat.Unsigned.to_of. unfold Decimal.unorm.
  destruct (Decimal.nzhead (Nat.to_uint n)); discriminate.
Qed.

Lemma dec_nonempty (n : nat) : is_empty (dec n) = false.
Proof.
  unfold dec. pose proof (to_uint_nonnil n) as H.
  destruct (Nat.to_uint n); [contradiction | reflexivity ..].
Qed.


Lemma str_int_nonempty (z : Z) : is_empty (str_int z) = false.
Proof. destruct z; simpl; [reflexivity | apply dec_nonempty | reflexivity]. Qed.

Lemma numbered_with_prefix (card_stt : Z) (n : nat) :
  card_stt <> 0%Z ->
  numbered (prefix_of card_stt) n = str_int card_stt ++ "." ++ dec n.
Proof.
  intros H. unfold numbered, prefix_of.
  destruct (Z.eqb_spec card_stt 0) as [E | _]; [contradiction |].
  now rewrite str_int_nonempty.
Qed.

Lemma numbered_without_prefix (n : nat) : numbered (prefix_of 0) n = dec n.
Proof. reflexivity. Qed.

Lemma weave_ext (f g : nat -> rmatch -> string) :
  (forall k m, f k m = g k m) ->
  forall ms j tl, weave f j ms tl = weave g j ms tl.
Proof.
  intros H ms. induction ms as [|[gap m] ms IH]; intros j tl; simpl; [reflexivity |].
  now rewrite H, IH.
Qed.


(** ** White space *)














(** ** The matcher and [den] *)

Lemma den_iter_rest (R : Re.mstate -> string -> Re.mstate -> Prop) :
  (forall s w s1, R s w s1 -> Re.ms_rest s = w ++ Re.ms_rest s1) ->
  forall n s w s1, den_iter R n s w s1 -> Re.ms_rest s = w ++ Re.ms_rest s1.
Proof.
  intros HR n. induction n as [|n IH]; intros s w s1; cbn [den_iter].
  - intros [-> ->]. reflexivity.
  - intros (s' & u & v & -> & H1 & H2).
    rewrite (HR _ _ _ H1), (IH _ _ _ H2). now rewrite append_assoc.
Qed.

Lemma one_char_rest (p : ascii -> bool) (s : Re.mstate) (w : string) (s1 : Re.mstate) :
  one_char p s w s1 -> Re.ms_rest s = w ++ Re.ms_rest s1.
Proof. intros (d & _ & -> & H & _). exact H. Qed.

(** A match consumes exactly the text between its two states. *)
Lemma den_rest (r : Re.re) :
  forall s w s1, den r s w s1 -> Re.ms_rest s = w ++ Re.ms_rest s1.
Proof.
  induction r; intros s w s1; cbn [den];
    try (intros [-> [-> _]]; reflexivity);
    try (intros [-> ->]; reflexivity);
    try apply one_char_rest.
  - intros (s' & u & v & -> & H1 & H2).
    rewrite (IHr1 _ _ _ H1), (IHr2 _ _ _ H2). now rewrite append_assoc.
  - intros [H | H]; auto.
  - intros (n & _ & _ & H). now apply (den_iter_rest (den r) IHr n).
  - intros (s' & H & ->). cbn. now apply IHr.
  - intros (_ & H & _). exact H.
  - intros [].
Qed.

Lemma one_char_sound (p : ascii -> bool) (s : Re.mstate)
    (k : Re.mstate -> option Re.mstate) (res : Re.mstate) :
  match Re.ms_rest s with
  | String d t => if p d then k (Re.MS (Some d) t (Re.ms_caps s)) else None
  | EmptyString => None
  end = Some res ->
  exists w s1, one_char p s w s1 /\ k s1 = Some res.
Proof.
  destruct (Re.ms_rest s) as [|d t] eqn:E; [discriminate |].
  destruct (p d) eqn:P; [| discriminate]. intros H.
  exists (String d ""), (Re.MS (Some d) t (Re.ms_caps s)). split; [| exact H].
  exists d. repeat split; assumption.
Qed.

Lemma rep_loop_sound (body : Re.mstate -> (Re.mstate -> option Re.mstate) -> option Re.mstate)
    (R : Re.mstate -> string -> Re.mstate -> Prop) (g : bool) (lo : nat) (hi : option nat)
    (k : Re.mstate -> option Re.mstate) (res : Re.mstate) :
  (forall s k', body s k' = Some res -> exists w s1, R s w s1 /\ k' s1 = Some res) ->
  forall fuel n s,
    (forall h, hi = Some h -> n <= h) ->
    Re.rep_loop body g lo hi k fuel n s = Some res ->
    exists j w s1, den_iter R j s w s1 /\ k s1 = Some res
                   /\ lo <= n + j /\ (forall h, hi = Some h -> n + j <= h).
Proof.
  intros Hbody.
  assert (Stop : forall n s,
             (forall h, hi = Some h -> n <= h) ->
             (if lo <=? n then k s else None) = Some res ->
             exists j w s1, den_iter R j s w s1 /\ k s1 = Some res
                            /\ lo <= n + j /\ (forall h, hi = Some h -> n + j <= h)).
  { intros n s Hn H. destruct (Nat.leb_spec lo n); [| discriminate].
    exists 0, "", s. cbn. rewrite Nat.add_0_r. auto. }
  induction fuel as [|fuel IH]; intros n s Hn; cbn [Re.rep_loop]; [now apply Stop |].
  assert (More : (if Re.under hi n
                  then body s (fun s1 =>
                         if (String.length (Re.ms_rest s1) <? String.length (Re.ms_rest s))
                            || (n <? lo)
                         then Re.rep_loop body g lo hi k fuel (S n) s1 else None)
                  else None) = Some res ->
                 exists j w s1, den_iter R j s w s1 /\ k s1 = Some res
                                /\ lo <= n + j /\ (forall h, hi = Some h -> n + j <= h)).
  { destruct (Re.under hi n) eqn:U; [| discriminate]. intros H.
    apply Hbody in H as (u & s' & Hu & H).
    destruct (_ || _) in H; [| discriminate].
    apply IH in H as (j & v & s1 & Hv & H & Hlo & Hhi).
    - exists (S j), (u ++ v), s1. split; [| split; [exact H | split]].
      + cbn. exists s', u, v. auto.
      + lia.
      + intros h Hh. specialize (Hhi h Hh). lia.
    - intros h Hh. subst hi. cbn in U. apply Nat.ltb_lt in U. lia. }
  destruct g.
  - destruct (if Re.under hi n then _ else None) eqn:E.
    + intros H. inversion H; subst. now apply More.
    + now apply Stop.
  - destruct (if lo <=? n then k s else None) eqn:E.
    + intros H. inversion H; subst. now apply (Stop n).
    + apply More.
Qed.

(** Whenever the matcher succeeds, it has taken one of the ways [den]
    describes, and the continuation accepted the state reached. *)
Lemma mt_den (r : Re.re) :
  forall s k res,
    Re.mt r s k = Some res -> exists w s1, den r s w s1 /\ k s1 = Some res.
Proof.
  induction r; intros s k res; cbn [Re.mt den].
  - intros H. exists "", s. auto.
  - apply one_char_sound.
  - apply one_char_sound.
  - apply one_char_sound.
  - intros H. apply IHr1 in H as (u & s' & Hu & H).
    apply IHr2 in H as (v & s1 & Hv & H).
    exists (u ++ v), s1. split; [| exact H]. exists s', u, v. auto.
  - destruct (Re.mt r1 s k) eqn:E.
    + intros H. inversion H; subst. apply IHr1 in E as (w & s1 & Hw & H1).
      exists w, s1. auto.
    + intros H. apply IHr2 in H as (w & s1 & Hw & H1). exists w, s1. auto.
  - intros H.
    apply (rep_loop_sound (Re.mt r) (den r) greedy lo hi k res) in H
      as (j & w & s1 & Hw & H & Hlo & Hhi);
      [| intros s0 k' Hk; now apply IHr | intros h _; lia].
    exists w, s1. split; [now exists j | exact H].
  - intros H. apply IHr in H as (w & s' & Hw & H).
    rewrite (den_rest r _ _ _ Hw), length_append in H.
    replace (String.length w + String.length (Re.ms_rest s') - String.length (Re.ms_rest s'))
      with (String.length w) in H by lia.
    rewrite take_app_length in H.
    eexists w, _. split; [| exact H]. exists s'. auto.
  - destruct (Re.cap_get i (Re.ms_caps s)) as [w |] eqn:E; [| discriminate].
    destruct (startswith w (Re.ms_rest s)) eqn:P; [| discriminate].
    intros H. eexists w, _. split; [| exact H]. cbn.
    apply startswith_spec in P as [t P]. rewrite P, drop_app_length. auto.
  - destruct (Re.mt r s Some) eqn:E; destruct neg; try discriminate;
      intros H; exists "", s; repeat split; auto; congruence.
  - destruct (Re.ms_prev s) as [c |].
    + cbn zeta. destruct (Re.mt r _ _) eqn:B; destruct neg; try discriminate;
        intros H; exists "", s; (split; [| exact H]); repeat split; congruence.
    + destruct neg; try discriminate. intros H; exists "", s; auto.
  - destruct (Re.ms_prev s) eqn:E; [discriminate |]. intros H. exists "", s. auto.
  - intros H. exists "", s.
    destruct (Re.ms_rest s) as [|c [|c' t]]; auto; try discriminate.
    + destruct c as [[] [] [] [] [] [] [] []]; try discriminate. auto.
    + destruct c as [[] [] [] [] [] [] [] []]; discriminate.
  - destruct (xorb _ _) eqn:X; [| discriminate]. intros H. exists "", s. auto.
  - discriminate.
Qed.

(** A match found at a position: its text is what the expression
    consumed, and its groups are those of the state reached. *)
Lemma exec_den (r : Re.re) (prev : option ascii) (s : string) (adv : bool) (m : rmatch) :
  Re.exec r prev s adv = Some m ->
  exists s1, den r (Re.MS prev s []) (Re.m_all m) s1
             /\ s = Re.m_all m ++ Re.ms_rest s1
             /\ Re.m_caps m = Re.ms_caps s1.
Proof.
  unfold Re.exec.
  destruct (Re.mt r _ _) as [s1 |] eqn:E; [| discriminate].
  intros H. inversion H; subst; clear H. cbn [Re.m_all Re.m_caps].
  apply mt_den in E as (w & s2 & Hw & E).
  destruct (adv && _) in E; [discriminate |]. inversion E; subst; clear E.
  pose proof (den_rest r _ _ _ Hw) as Hr. cbn [Re.ms_rest] in Hr.
  assert (T : take (String.length s - String.length (Re.ms_rest s1)) s = w).
  { rewrite Hr, length_append.
    replace (String.length w + String.length (Re.ms_rest s1)
             - String.length (Re.ms_rest s1)) with (String.length w) by lia.
    apply take_app_length. }
  rewrite T. exists s1. auto.
Qed.


Lemma rev_onto_app (s acc t : string) : rev_onto s acc ++ t = rev_onto s (acc ++ t).
Proof. revert acc. induction s as [|c s IH]; intros acc; cbn; [reflexivity | apply IH]. Qed.

Lemma rev_cons_app (c : ascii) (gap t : string) :
  rev (String c gap) ++ t = rev gap ++ String c t.
Proof. unfold rev. cbn [rev_onto]. now rewrite !rev_onto_app. Qed.

Lemma drop_nil (n : nat) : drop n "" = "".
Proof. now destruct n. Qed.







(** ** Shapes of matches *)

Lemma den_lit (c : ascii) (s : Re.mstate) (w : string) (s1 : Re.mstate) :
  den (Re.Lit c) s w s1 ->
  w = String c "" /\ Re.ms_rest s = String c (Re.ms_rest s1)
  /\ Re.ms_caps s1 = Re.ms_caps s.
Proof.
  cbn [den]. intros (d & Hd & -> & Hr & Hs). apply Ascii.eqb_eq in Hd. subst d.
  rewrite Hs. cbn. auto.
Qed.

Lemma den_lits (w : string) (k : Re.re) :
  forall s x s1,
    den (lits w k) s x s1 ->
    exists v s', x = w ++ v /\ den k s' v s1
                 /\ Re.ms_rest s = w ++ Re.ms_rest s' /\ Re.ms_caps s' = Re.ms_caps s.
Proof.
  induction w as [|c w IH]; intros s x s1; cbn [lits].
  - intros H. exists x, s. auto.
  - cbn [den]. intros (s' & u & v & -> & Hu & Hv).
    apply (den_lit c) in Hu as (-> & Hr & Hc).
    apply IH in Hv as (v' & s'' & -> & Hk & Hr' & Hc').
    exists v', s''. split; [reflexivity | split; [exact Hk | split; [| congruence]]].
    rewrite Hr, Hr'. reflexivity.
Qed.



Lemma den_iter_caps (R : Re.mstate -> string -> Re.mstate -> Prop) :
  (forall s w s1, R s w s1 -> Re.ms_caps s1 = Re.ms_caps s) ->
  forall n s w s1, den_iter R n s w s1 -> Re.ms_caps s1 = Re.ms_caps s.
Proof.
  intros HR n. induction n as [|n IH]; intros s w s1; cbn [den_iter].
  - intros [_ ->]. reflexivity.
  - intros (s' & u & v & _ & H1 & H2).
    rewrite (IH _ _ _ H2). now apply HR in H1.
Qed.

(** Only a capturing group changes the groups of the state. *)
Lemma den_no_grp (r : Re.re) :
  no_grp r = true ->
  forall s w s1, den r s w s1 -> Re.ms_caps s1 = Re.ms_caps s.
Proof.
  induction r; cbn [no_grp]; intros G s w s1; cbn [den]; try discriminate;
    try (intros [_ [-> _]]; reflexivity);
    try (intros [_ ->]; reflexivity);
    try (intros (d & _ & _ & _ & ->); reflexivity).
  - apply andb_prop in G as [G1 G2]. intros (s' & u & v & _ & H1 & H2).
    rewrite (IHr2 G2 _ _ _ H2). now apply (IHr1 G1) in H1.
  - apply andb_prop in G as [G1 G2]. intros [H | H]; eauto.
  - intros (n & _ & _ & H). now apply (den_iter_caps (den r) (IHr G) n) in H.
  - intros (_ & _ & H & _). exact H.
  - intros [].
Qed.

Lemma all_chars_space (w : string) :
  all_chars (Re.cls_has false [Re.CSp]) w = true -> all_chars is_space w = true.
Proof.
  induction w as [|c w IH]; cbn [all_chars]; [easy |].
  intros H. apply andb_prop in H as [H1 H2]. rewrite (IH H2), andb_true_r.
  unfold Re.cls_has in H1. cbn in H1. now rewrite orb_false_r in H1.
Qed.


Lemma search_go_spec (r : Re.re) (s : string) :
  forall prev bef before m after,
    Re.search_go r prev s bef = Some (before, m, after) ->
    rev bef ++ s = before ++ Re.m_all m ++ after /\ found_by r (before, m).
Proof.
  induction s as [|c t IH]; intros prev bef before m after; cbn [Re.search_go].
  - destruct (Re.exec r prev "" false) as [m0 |] eqn:E; [| discriminate].
    intros H; inversion H; subst; clear H.
    split; [| now exists prev, "", false].
    apply exec_den in E as (s1 & _ & Hs & _).
    f_equal. rewrite Hs at 1 2. now rewrite drop_app_length.
  - destruct (Re.exec r prev (String c t) false) as [m0 |] eqn:E.
    + intros H; inversion H; subst; clear H.
      split; [| now exists prev, (String c t), false].
      apply exec_den in E as (s1 & _ & Hs & _).
      f_equal. rewrite Hs at 1 2. now rewrite drop_app_length.
    + intros H. apply IH in H as [H1 H2]. split; [| exact H2].
      now rewrite <- H1, rev_cons_app.
Qed.

Lemma search_spec (r : Re.re) (s before after : string) (m : rmatch) :
  Re.search r s = Some (before, m, after) ->
  s = before ++ Re.m_all m ++ after /\ found_by r (before, m).
Proof. intros H. now apply search_go_spec in H. Qed.


(** *** Where there is a way to match, the matcher finds one *)

Lemma den_iter_count (R : Re.mstate -> string -> Re.mstate -> Prop) :
  (forall s w s1, R s w s1 ->
     String.length (Re.ms_rest s1) < String.length (Re.ms_rest s)) ->
  forall n s w s1,
    den_iter R n s w s1 ->
    n + String.length (Re.ms_rest s1) <= String.length (Re.ms_rest s).
Proof.
  intros HR n. induction n as [|n IH]; intros s w s1; cbn [den_iter].
  - intros [_ ->]. lia.
  - intros (s' & u & v & _ & H1 & H2). apply HR in H1. apply IH in H2. lia.
Qed.

Lemma den_length (r : Re.re) (s : Re.mstate) (w : string) (s1 : Re.mstate) :
  den r s w s1 ->
  String.length (Re.ms_rest s) = String.length w + String.length (Re.ms_rest s1).
Proof. intros H. apply den_rest in H. now rewrite H, length_append. Qed.

(** A match of a consuming expression moves the position on. *)
Lemma consuming_den (r : Re.re) :
  consuming r = true ->
  forall s w s1, den r s w s1 ->
    String.length (Re.ms_rest s1) < String.length (Re.ms_rest s).
Proof.
  induction r; cbn [consuming]; intros C s w s1 D; try discriminate.
  - pose proof (den_length _ _ _ _ D) as L. destruct D as (d & _ & -> & _). cbn in L. lia.
  - pose proof (den_length _ _ _ _ D) as L. destruct D as (d & _ & -> & _). cbn in L. lia.
  - pose proof (den_length _ _ _ _ D) as L. destruct D as (d & _ & -> & _). cbn in L. lia.
  - cbn [den] in D. destruct D as (s' & u & v & -> & D1 & D2).
    pose proof (den_length _ _ _ _ D1). pose proof (den_length _ _ _ _ D2).
    apply orb_prop in C as [C | C].
    + specialize (IHr1 C _ _ _ D1). lia.
    + specialize (IHr2 C _ _ _ D2). lia.
  - apply andb_prop in C as [C1 C2]. cbn [den] in D. destruct D as [D | D]; eauto.
  - apply andb_prop in C as [C1 C2]. apply Nat.ltb_lt in C1.
    cbn [den] in D. destruct D as (n & Hn & _ & D).
    destruct n as [|n]; [lia |]. cbn [den_iter] in D.
    destruct D as (s' & u & v & -> & D1 & D2).
    specialize (IHr C2 _ _ _ D1).
    apply (den_iter_rest _ (den_rest r)) in D2.
    rewrite D2, length_append in IHr. lia.
  - cbn [den] in D. destruct D as (s' & D & ->). cbn. eauto.
Qed.

Lemma rep_loop_complete
    (body : Re.mstate -> (Re.mstate -> option Re.mstate) -> option Re.mstate)
    (R : Re.mstate -> string -> Re.mstate -> Prop) (g : bool) (lo : nat) (hi : option nat)
    (k : Re.mstate -> option Re.mstate) :
  (forall s w s1 k' res, R s w s1 -> k' s1 = Some res -> exists res', body s k' = Some res') ->
  (forall s w s1, R s w s1 ->
     String.length (Re.ms_rest s1) < String.length (Re.ms_rest s)) ->
  forall m j s w s1 fuel res,
    den_iter R m s w s1 -> lo <= j + m -> (forall h, hi = Some h -> j + m <= h) ->
    m < fuel -> k s1 = Some res ->
    exists res', Re.rep_loop body g lo hi k fuel j s = Some res'.
Proof.
  intros Hbody Hcons m.
  induction m as [|m IH]; intros j s w s1 fuel res D Hlo Hhi Hf Hk;
    (destruct fuel as [|fuel]; [lia |]); cbn [den_iter] in D; cbn [Re.rep_loop].
  - destruct D as [_ ->].
    replace (lo <=? j) with true by (symmetry; apply Nat.leb_le; lia).
    rewrite Hk.
    destruct g; [| eauto].
    destruct (if Re.under hi j then _ else None); eauto.
  - destruct D as (s' & u & v & _ & D1 & D2).
    assert (U : Re.under hi j = true).
    { destruct hi as [h |]; [| reflexivity]. cbn. apply Nat.ltb_lt.
      specialize (Hhi h eq_refl). lia. }
    rewrite U.
    destruct (IH (S j) s' v s1 fuel res D2) as [r1 Hr1];
      [lia | intros h Hh; specialize (Hhi h Hh); lia | lia | exact Hk |].
    destruct (Hbody s u s'
                (fun s2 =>
                   if (String.length (Re.ms_rest s2) <? String.length (Re.ms_rest s))
                      || (j <? lo)
                   then Re.rep_loop body g lo hi k fuel (S j) s2 else None) r1 D1)
      as [r2 Hr2].
    { replace (String.length (Re.ms_rest s') <? String.length (Re.ms_rest s)) with true
        by (symmetry; apply Nat.ltb_lt; now apply (Hcons _ _ _ D1)).
      exact Hr1. }
    rewrite Hr2. destruct g; [eauto |].
    destruct (if lo <=? j then k s else None); eauto.
Qed.

Lemma one_char_complete (p : ascii -> bool) (s : Re.mstate) (w : string) (s1 : Re.mstate)
    (k : Re.mstate -> option Re.mstate) (res : Re.mstate) :
  one_char p s w s1 -> k s1 = Some res ->
  match Re.ms_rest s with
  | String d t => if p d then k (Re.MS (Some d) t (Re.ms_caps s)) else None
  | EmptyString => None
  end = Some res.
Proof.
  intros (d & Hd & _ & Hr & Hs) Hk. rewrite Hr, Hd, <- Hs. exact Hk.
Qed.

(** The matcher finds a match wherever [den] has one. *)
Lemma den_mt (r : Re.re) :
  steady r = true ->
  forall s w s1 k res,
    den r s w s1 -> k s1 = Some res -> exists res', Re.mt r s k = Some res'.
Proof.
  induction r; cbn [steady]; intros St s w s1 k res D Hk; cbn [Re.mt]; cbn [den] in D.
  - destruct D as [_ ->]. eauto.
  - eexists. eapply one_char_complete; eauto.
  - eexists. eapply one_char_complete; eauto.
  - eexists. eapply one_char_complete; eauto.
  - apply andb_prop in St as [S1 S2]. destruct D as (s' & u & v & _ & D1 & D2).
    destruct (IHr2 S2 _ _ _ _ _ D2 Hk) as [x2 H2].
    exact (IHr1 S1 _ _ _ _ _ D1 H2).
  - apply andb_prop in St as [S1 S2].
    destruct (Re.mt r1 s k) eqn:E; [eauto |].
    destruct D as [D | D].
    + destruct (IHr1 S1 _ _ _ _ _ D Hk) as [x2 H2]. congruence.
    + exact (IHr2 S2 _ _ _ _ _ D Hk).
  - apply andb_prop in St as [S1 S2]. destruct D as (n & Hlo & Hhi & D).
    apply (rep_loop_complete (Re.mt r) (den r) greedy lo hi k
             (fun s0 w0 s2 k' res0 => IHr S1 s0 w0 s2 k' res0)
             (consuming_den r S2) n 0 s w s1 _ res D); auto.
    pose proof (den_iter_count (den r) (consuming_den r S2) _ _ _ _ D). lia.
  - destruct D as (s' & D & ->).
    apply (IHr St _ _ _ _ res D).
    rewrite (den_rest r _ _ _ D), length_append.
    replace (String.length w + String.length (Re.ms_rest s') - String.length (Re.ms_rest s'))
      with (String.length w) by lia.
    now rewrite take_app_length.
  - destruct D as (Hc & Hr & Hcaps & Hp). rewrite Hc, Hr, startswith_refl_app.
    rewrite drop_app_length, <- Hp, <- Hcaps. destruct s1; eauto.
  - destruct D as (_ & -> & D). destruct neg.
    + rewrite D. eauto.
    + destruct (Re.mt r s Some); [eauto | contradiction].
  - destruct D as (_ & -> & D). destruct (Re.ms_prev s) as [c |].
    + cbn zeta in D. destruct neg.
      * rewrite D. eauto.
      * destruct (Re.mt r _ _); [eauto | contradiction].
    + subst neg. eauto.
  - destruct D as (_ & -> & D). rewrite D. eauto.
  - destruct D as (_ & -> & [D | D]); rewrite D; eauto.
  - destruct D as (_ & -> & D). rewrite D. eauto.
  - destruct D.
Qed.

(** An attempt at a position succeeds when there is a way to match there. *)
Lemma exec_complete (r : Re.re) (prev : option ascii) (s w : string) (s1 : Re.mstate) :
  steady r = true -> den r (Re.MS prev s []) w s1 ->
  exists m, Re.exec r prev s false = Some m.
Proof.
  intros St D. unfold Re.exec.
  destruct (den_mt r St _ _ _ (fun s2 => if false && (String.length (Re.ms_rest s2)
                                                      =? String.length s)
                                        then None else Some s2) s1 D eq_refl) as [r1 H].
  rewrite H. eauto.
Qed.

(** *** Where a search and a scan stop *)



(** A search that fails found no match at any position. *)
Lemma search_go_none (r : Re.re) (s : string) :
  forall prev bef,
    Re.search_go r prev s bef = None ->
    forall a b, s = a ++ b -> Re.exec r (Re.last_char prev a) b false = None.
Proof.
  induction s as [|c t IH]; intros prev bef; cbn [Re.search_go].
  - destruct (Re.exec r prev "" false) eqn:E; [discriminate |].
    intros _ a b H. destruct a; [| discriminate]. cbn in H. subst b. exact E.
  - destruct (Re.exec r prev (String c t) false) eqn:E; [discriminate |].
    intros H a b Hs. destruct a as [|d a]; cbn in Hs.
    + subst b. exact E.
    + inversion Hs; subst. cbn [Re.last_char]. now apply (IH _ _ H).
Qed.

(** A search stops at the first position where there is a match. *)
Lemma search_go_first (r : Re.re) (s : string) :
  forall prev bef before m after,
    Re.search_go r prev s bef = Some (before, m, after) ->
    exists a,
      before = rev bef ++ a
      /\ Re.exec r (Re.last_char prev a) (Re.m_all m ++ after) false = Some m
      /\ s = a ++ Re.m_all m ++ after
      /\ forall a1 b1, s = a1 ++ b1 -> String.length a1 < String.length a ->
           Re.exec r (Re.last_char prev a1) b1 false = None.
Proof.
  induction s as [|c t IH]; intros prev bef before m after; cbn [Re.search_go].
  - destruct (Re.exec r prev "" false) as [m0 |] eqn:E; [| discriminate].
    intros H; inversion H; subst; clear H. exists "".
    pose proof (exec_den _ _ _ _ _ E) as (s1 & _ & Hs & _).
    assert (M : Re.m_all m = "") by (now destruct (Re.m_all m)).
    rewrite M. cbn. rewrite append_nil_r. repeat split; auto.
    intros a1 b1 _ L. cbn in L. lia.
  - destruct (Re.exec r prev (String c t) false) as [m0 |] eqn:E.
    + intros H; inversion H; subst; clear H. exists "".
      pose proof (exec_den _ _ _ _ _ E) as (s1 & _ & Hs & _).
      assert (Hd : Re.m_all m ++ drop (String.length (Re.m_all m)) (String c t) = String c t).
      { rewrite Hs at 1. rewrite drop_app_length. now symmetry. }
      rewrite Hd. cbn. rewrite append_nil_r. repeat split; auto.
      intros a1 b1 _ L. cbn in L. lia.
    + intros H. apply IH in H as (a & Hb & He & Hs & Hf).
      exists (String c a). cbn [Re.last_char]. repeat split; auto.
      * now rewrite Hb, rev_cons_app.
      * cbn. now rewrite <- Hs.
      * intros a1 b1 H1 L. destruct a1 as [|d a1]; cbn in H1.
        -- subst b1. exact E.
        -- inversion H1 as [[Hd H2]]. subst d. cbn [Re.last_char].
           apply Hf; [exact H2 |].
           cbn in L. lia.
Qed.

Lemma search_first (r : Re.re) (s before after : string) (m : rmatch) :
  Re.search r s = Some (before, m, after) ->
  Re.exec r (Re.last_char None before) (Re.m_all m ++ after) false = Some m
  /\ forall a1 b1, s = a1 ++ b1 -> String.length a1 < String.length before ->
       Re.exec r (Re.last_char None a1) b1 false = None.
Proof.
  intros H. apply search_go_first in H as (a & Hb & He & _ & Hf).
  cbn in Hb. subst a. auto.
Qed.

Lemma search_none (r : Re.re) (s : string) :
  Re.search r s = None ->
  forall a b, s = a ++ b -> Re.exec r (Re.last_char None a) b false = None.
Proof. intros H. now apply (search_go_none r s None ""). Qed.





(** *** Texts that open a match *)

Lemma startswith_split (p u y : string) :
  startswith p (u ++ y) = true ->
  startswith p u = true \/ exists q, p = u ++ q /\ startswith q y = true.
Proof.
  revert p. induction u as [|a u IH]; intros p H.
  - right. now exists p.
  - destruct p as [|b p]; [now left |].
    cbn [append startswith] in *. apply andb_prop in H as [H1 H2].
    apply Ascii.eqb_eq in H1. subst b. rewrite Ascii.eqb_refl. cbn [andb].
    destruct (IH _ H2) as [L | (q & -> & Hq)]; [now left |].
    right. now exists q.
Qed.

Lemma mem_char_app (c : ascii) (a b : string) :
  mem_char c (a ++ b) = mem_char c a || mem_char c b.
Proof.
  induction a as [|d a IH]; cbn [append mem_char]; [reflexivity |].
  now rewrite IH, orb_assoc.
Qed.

(** A text whose first character occurs nowhere else in it does not
    begin in one text and end in the next occurrence of itself. *)
Lemma startswith_no_straddle (c : ascii) (p u x : string) :
  mem_char c p = false -> u <> "" ->
  startswith (String c p) (u ++ String c x) = true ->
  startswith (String c p) u = true.
Proof.
  intros Hc Hu H. apply startswith_split in H as [H | (q & Hp & Hq)]; [exact H |].
  destruct q as [|d q].
  - rewrite append_nil_r in Hp. rewrite <- Hp.
    rewrite <- (append_nil_r (String c p)) at 2. apply startswith_refl_app.
  - cbn [startswith] in Hq. apply andb_prop in Hq as [Hd _].
    apply Ascii.eqb_eq in Hd. subst d.
    destruct u as [|a u]; [contradiction |].
    cbn [append] in Hp. inversion Hp; subst.
    rewrite mem_char_app in Hc. cbn [mem_char] in Hc.
    rewrite Ascii.eqb_refl in Hc. cbn in Hc. now rewrite orb_true_r in Hc.
Qed.


Lemma contains_startswith (p s : string) : startswith p s = true -> contains p s = true.
Proof. intros H. destruct s; cbn [contains]; now rewrite H. Qed.

(** ** Building and reading matches *)


Lemma den_lit_intro (c : ascii) (p : option ascii) (t : string) (caps : list (nat * string)) :
  den (Re.Lit c) (Re.MS p (String c t) caps) (String c "") (Re.MS (Some c) t caps).
Proof. cbn [den]. exists c. rewrite Ascii.eqb_refl. auto. Qed.

Lemma den_lits_intro (w : string) (k : Re.re) :
  forall p t caps v s1,
    den k (ahead p w t caps) v s1 ->
    den (lits w k) (Re.MS p (w ++ t) caps) (w ++ v) s1.
Proof.
  induction w as [|c w IH]; intros p t caps v s1 H; [exact H |].
  cbn [lits den append].
  exists (Re.MS (Some c) (w ++ t) caps), (String c ""), (w ++ v).
  split; [reflexivity | split; [apply den_lit_intro |]].
  apply IH. exact H.
Qed.








Lemma steady_space : steady Re.space = true /\ consuming Re.space = true.
Proof. split; reflexivity. Qed.








Lemma den_seq_intro (a b : Re.re) (s s' s1 : Re.mstate) (u v : string) :
  den a s u s' -> den b s' v s1 -> den (Re.Seq a b) s (u ++ v) s1.
Proof. intros H1 H2. cbn [den]. exists s', u, v. auto. Qed.



Lemma den_grp_intro (i : nat) (a : Re.re) (s s' : Re.mstate) (w : string) :
  den a s w s' ->
  den (Re.Grp i a) s w (Re.MS (Re.ms_prev s') (Re.ms_rest s') ((i, w) :: Re.ms_caps s')).
Proof. intros H. cbn [den]. exists s'. auto. Qed.



Lemma den_seq_eq (a b : Re.re) (s s' s1 : Re.mstate) (u v w : string) :
  w = u ++ v -> den a s u s' -> den b s' v s1 -> den (Re.Seq a b) s w s1.
Proof. intros -> H1 H2. now apply (den_seq_intro a b s s' s1). Qed.

(** ** Heading numbers (claim C4) *)

(** C4 (the code departs from the claim).  A [\subsubsection] met before
    any [\subsection] of the card is numbered with a zero segment: with
    card prefix 8 the heading number is [8.0.1], where the claim (and the
    [\paragraph] branch of the same function) skips the absent ancestor. *)
Theorem subsubsection_without_subsection_emits_zero :
  _number_headings "\subsubsection{A}" 8 = "<h5>8.0.1. A</h5>".
Proof. vm_compute. reflexivity. Qed.

(** The same numbering branch, for every prefix and every count: the
    segment of the parent level is printed even when it is still 0. *)
Lemma subsubsection_number_keeps_zero_parent (prefix : string) (st : heading_state) :
  subsec st = 0 ->
  fst (heading_number prefix "subsubsection" st)
  = with_prefix prefix ("0." ++ dec (subsubsec st + 1)).
Proof. intros H. unfold heading_number. simpl. rewrite H. reflexivity. Qed.

(** The [\paragraph] branch does skip absent ancestors. *)
Lemma paragraph_number_skips_absent_parents (prefix : string) (st : heading_state) :
  subsec st = 0 -> subsubsec st = 0 ->
  fst (heading_number prefix "paragraph" st) = with_prefix prefix (dec (para st + 1)).
Proof. intros H1 H2. unfold heading_number. simpl. rewrite H1, H2. reflexivity. Qed.


(** ** Table header deduplication (claims C5 and C10) *)



Lemma rows_html_length (n i : nat) (rows : list string) :
  length (rows_html n i rows) = length rows.
Proof. revert i. induction rows as [|r rows IH]; intros i; simpl; [reflexivity | now rewrite IH]. Qed.





(** ** Figure and table counters (claim C8) *)

Lemma float_pass (word : string) (card_stt : Z) (ms : list (string * rmatch))
    (tl : string) (c : Z) :
  Re.sub_fold (float_repl word card_stt) ms tl c
  = (weave (fun k m => float_body word card_stt (c + 1 + Z.of_nat k) m) 0 ms tl,
     (c + Z.of_nat (length ms))%Z).
Proof.
  rewrite (sub_fold_weave (float_repl word card_stt)
             (fun st m => float_body word card_stt (st + 1) m) Z.succ)
    by reflexivity.
  assert (I : forall k, Nat.iter k Z.succ c = (c + Z.of_nat k)%Z).
  { induction k as [|k IH]; simpl; [lia | rewrite IH; lia]. }
  rewrite I. f_equal. apply weave_ext. intros k m. rewrite I. f_equal. lia.
Qed.

Lemma latex_to_html_counters (w : world) (tex : string) (o : options)
    (fc tc : option Z) (html : string) (fc' tc' : Z) :
  latex_to_html w tex o fc tc = Ok (html, fc', tc') ->
  fc' = (default 0 fc + Z.of_nat (length (figure_envs w tex o)))%Z
  /\ tc' = (default 0 tc + Z.of_nat (length (table_envs w tex o (default 0 fc))))%Z.
Proof.
  unfold latex_to_html, figure_envs, table_envs, float_stage.
  destruct (before_math w tex (card_stt o) (tikz_preamble o)) as [t0 cp].
  destruct (protect_math t0) as [t1 ms].
  set (t2 := before_floats w t1 (environments o) (proof_label o) (card_stt o)).
  unfold Re.sub_st, _figure_repl, _table_env_repl.
  destruct (Re.finditer pat_figure t2) as [msf tlf] eqn:Ef.
  rewrite float_pass. simpl fst.
  destruct (Re.finditer pat_table _) as [mst tlt] eqn:Et.
  rewrite float_pass.
  destruct (after_floats w _ (cross_ref_text o) (images_dir o) (card_stt o)); simpl;
    intros H; inversion H; subst. split; reflexivity.
Qed.

Lemma process_sections_app (w : world) (s1 s2 : list (options * string)) (fc tc : Z) :
  process_sections w (s1 ++ s2)%list fc tc
  = do (h1, fc1, tc1) <- process_sections w s1 fc tc;
    do (h2, fc2, tc2) <- process_sections w s2 fc1 tc1;
    Ok ((h1 ++ h2)%list, fc2, tc2).
Proof.
  revert fc tc. induction s1 as [|[o c] s1 IH]; intros fc tc; simpl.
  - destruct (process_sections w s2 fc tc) as [[[h f] t] | e]; reflexivity.
  - destruct (latex_to_html w c o (Some fc) (Some tc)) as [[[h f] t] | e]; simpl;
      [| reflexivity].
    rewrite IH.
    destruct (process_sections w s1 f t) as [[[h1 f1] t1] | e]; simpl; [| reflexivity].
    destruct (process_sections w s2 f1 t1) as [[[h2 f2] t2] | e]; reflexivity.
Qed.

Lemma process_sections_monotone (w : world) (secs : list (options * string))
    (fc tc : Z) (htmls : list string) (fc' tc' : Z) :
  process_sections w secs fc tc = Ok (htmls, fc', tc') ->
  (fc <= fc')%Z /\ (tc <= tc')%Z.
Proof.
  revert fc tc htmls. induction secs as [|[o c] secs IH]; intros fc tc htmls; simpl.
  - intros H. inversion H. lia.
  - destruct (latex_to_html w c o (Some fc) (Some tc)) as [[[h f] t] | e] eqn:E; simpl;
      [| discriminate].
    apply latex_to_html_counters in E as [-> ->]. simpl.
    destruct (process_sections w secs _ _) as [[[hs f1] t1] | e] eqn:E2; simpl;
      [| discriminate].
    intros H. inversion H; subst. apply IH in E2. lia.
Qed.

(** C8.  The pass that numbers the floats of one call gives float number
    [k] (from 0) the caption number [c + 1 + k] and leaves the counter at
    [c] plus the number of floats; a call of [latex_to_html] returns each
    counter raised by the number of [figure] (resp. [table]) environments
    of its text; the sections of a chapter are processed with the counters
    the sections before them left, and the counters never go down. *)
Theorem float_counters_run_through_chapter :
  (forall word card_stt ms tl c,
      Re.sub_fold (float_repl word card_stt) ms tl c
      = (weave (fun k m => float_body word card_stt (c + 1 + Z.of_nat k) m) 0 ms tl,
         (c + Z.of_nat (length ms))%Z))
  /\ (forall w tex o fc tc html fc' tc',
         latex_to_html w tex o fc tc = Ok (html, fc', tc') ->
         fc' = (default 0 fc + Z.of_nat (length (figure_envs w tex o)))%Z
         /\ tc' = (default 0 tc
                   + Z.of_nat (length (table_envs w tex o (default 0 fc))))%Z)
  /\ (forall w s1 s2 fc tc,
         process_sections w (s1 ++ s2)%list fc tc
         = do (h1, fc1, tc1) <- process_sections w s1 fc tc;
           do (h2, fc2, tc2) <- process_sections w s2 fc1 tc1;
           Ok ((h1 ++ h2)%list, fc2, tc2))
  /\ (forall w secs fc tc htmls fc' tc',
         process_sections w secs fc tc = Ok (htmls, fc', tc') ->
         (fc <= fc')%Z /\ (tc <= tc')%Z).
Proof.
  split; [exact float_pass |].
  split; [exact latex_to_html_counters |].
  split; [exact process_sections_app | exact process_sections_monotone].
Qed.

(** ** Counters across the sections of a chapter (claim C8), an instance *)

Lemma float_counters_run_through_chapter_witness :
  process_sections bare_world two_sections 0 0
  = Ok (["<p>" ++ caption_p "Hình 8.1: A" ++ caption_p "Hình 8.2: B" ++ "</p>";
         "<p>" ++ caption_p "Hình 9.3: C" ++ caption_p "Bảng 9.1: T" ++ "</p>"],
        3%Z, 1%Z)
  /\ ((0 <= 3)%Z /\ (0 <= 1)%Z)
  /\ (3%Z = (0 + Z.of_nat (length (figure_envs bare_world
                 "\begin{figure}\caption{A}\end{figure}\begin{figure}\caption{B}\end{figure}\begin{figure}\caption{C}\end{figure}"
                 options_8)))%Z
      /\ 0%Z = (0 + Z.of_nat (length (table_envs bare_world
                 "\begin{figure}\caption{A}\end{figure}\begin{figure}\caption{B}\end{figure}\begin{figure}\caption{C}\end{figure}"
                 options_8 0)))%Z).
Proof.
  split; [vm_compute; reflexivity |]. split.
  - eapply (proj2 (proj2 (proj2 float_counters_run_through_chapter))
              bare_world two_sections 0%Z 0%Z).
    vm_compute. reflexivity.
  - eapply (proj1 (proj2 float_counters_run_through_chapter) bare_world _ options_8
              (Some 0%Z) (Some 0%Z)).
    vm_compute. reflexivity.
Defined.


(** ** Environment numbering (claim C3) *)

Lemma counter_of_insert (lb : string) (n : nat) (lc : gmap string nat) :
  counter_of lb (<[lb := n]> lc) = n.
Proof. unfold counter_of. now rewrite lookup_insert_eq. Qed.

Lemma counter_of_insert_ne (lb lb' : string) (n : nat) (lc : gmap string nat) :
  lb' <> lb -> counter_of lb' (<[lb := n]> lc) = counter_of lb' lc.
Proof. intros H. unfold counter_of. now rewrite lookup_insert_ne. Qed.

Lemma counter_of_advance (lb : string) (n : nat) (lc : gmap string nat) :
  counter_of lb (advance lb n lc) = counter_of lb lc + n.
Proof.
  unfold advance. induction n as [|n IH]; simpl; [lia |].
  rewrite counter_of_insert, IH. lia.
Qed.

Lemma counter_of_advance_ne (lb lb' : string) (n : nat) (lc : gmap string nat) :
  lb' <> lb -> counter_of lb' (advance lb n lc) = counter_of lb' lc.
Proof.
  intros H. unfold advance. induction n as [|n IH]; simpl; [reflexivity |].
  now rewrite counter_of_insert_ne.
Qed.

Lemma advance_add (lb : string) (n k : nat) (lc : gmap string nat) :
  advance lb k (advance lb n lc) = advance lb (n + k) lc.
Proof.
  unfold advance. rewrite Nat.add_comm. now rewrite Nat.iter_add.
Qed.

Lemma env_div_block (cc ts c : string) : env_div cc ts c = env_block cc ts c.
Proof. reflexivity. Qed.

Lemma heading_numbered (prefix lb : string) (n : nat) (t : string) :
  (if is_empty t then lb ++ " " ++ numbered prefix n
   else lb ++ " " ++ numbered prefix n ++ " (" ++ t ++ ")")
  = env_heading prefix lb (Some n) t.
Proof.
  unfold env_heading, numbered.
  destruct (is_empty t); destruct (is_empty prefix);
    rewrite ?append_nil_r, ?append_assoc; reflexivity.
Qed.

Lemma heading_plain (prefix lb t : string) :
  (if is_empty t then lb else lb ++ " (" ++ t ++ ")") = env_heading prefix lb None t.
Proof. unfold env_heading. destruct (is_empty t); cbn [append]; now rewrite ?append_nil_r. Qed.

Lemma repl_title_pass (prefix cc lb : string) (ms : list (string * rmatch)) (tl : string)
    (lc : gmap string nat) :
  Re.sub_fold (repl_title prefix cc lb true) ms tl lc
  = (weave (fun k m => titled_div prefix cc lb (Some (counter_of lb lc + k + 1)) m) 0 ms tl,
     advance lb (length ms) lc).
Proof.
  rewrite (sub_fold_weave (repl_title prefix cc lb true)
             (fun st m => titled_div prefix cc lb (Some (counter_of lb st + 1)) m)
             (fun lc => <[lb := counter_of lb lc + 1]> lc)).
  - f_equal. apply weave_ext. intros k m.
    change (Nat.iter k _ lc) with (advance lb k lc). now rewrite counter_of_advance.
  - intros m st. unfold repl_title, titled_div. rewrite counter_of_insert.
    now rewrite heading_numbered, env_div_block.
Qed.

Lemma repl_no_pass (prefix cc lb : string) (ms : list (string * rmatch)) (tl : string)
    (lc : gmap string nat) :
  Re.sub_fold (repl_no prefix cc lb true) ms tl lc
  = (weave (fun k m => plain_div prefix cc lb (Some (counter_of lb lc + k + 1)) m) 0 ms tl,
     advance lb (length ms) lc).
Proof.
  rewrite (sub_fold_weave (repl_no prefix cc lb true)
             (fun st m => plain_div prefix cc lb (Some (counter_of lb st + 1)) m)
             (fun lc => <[lb := counter_of lb lc + 1]> lc)).
  - f_equal. apply weave_ext. intros k m.
    change (Nat.iter k _ lc) with (advance lb k lc). now rewrite counter_of_advance.
  - intros m st. unfold repl_no, plain_div. rewrite counter_of_insert.
    rewrite <- (heading_numbered prefix lb _ ""). reflexivity.
Qed.

Lemma unnumbered_pass {St : Type} (cb : rmatch -> St -> string * St)
    (out : rmatch -> string) :
  (forall m st, cb m st = (out m, st)) ->
  forall ms tl st, Re.sub_fold cb ms tl st = (weave (fun _ m => out m) 0 ms tl, st).
Proof.
  intros H ms tl st.
  rewrite (sub_fold_weave cb (fun _ m => out m) (fun st => st)) by exact H.
  f_equal. induction (length ms) as [|n IH]; simpl; congruence.
Qed.

Lemma numbered_css_spec (cc : string) :
  cc ∈ NUMBERED_CSS
  <-> cc = "env-theorem" \/ cc = "env-definition" \/ cc = "env-example".
Proof.
  unfold NUMBERED_CSS. rewrite !elem_of_union, !elem_of_singleton. tauto.
Qed.

(** One turn over a name with a numbered class. *)
Lemma numbered_turn (prefix text : string) (lc : gmap string nat)
    (env_name cc lb : string) :
  cc ∈ NUMBERED_CSS ->
  let c0 := counter_of lb lc in
  let '(ms1, tl1) := Re.finditer (pat_title env_name) text in
  let text1 := weave (fun k m => titled_div prefix cc lb (Some (c0 + k + 1)) m)
                     0 ms1 tl1 in
  let '(ms2, tl2) := Re.finditer (pat_no env_name) text1 in
  convert_one_environment prefix (text, lc) (env_name, (cc, lb))
  = (weave (fun k m => plain_div prefix cc lb (Some (c0 + length ms1 + k + 1)) m)
           0 ms2 tl2,
     advance lb (length ms1 + length ms2) lc).
Proof.
  intros Hcc. simpl.
  unfold convert_one_environment, Re.sub_st.
  rewrite (bool_decide_eq_true_2 _ Hcc).
  destruct (Re.finditer (pat_title env_name) text) as [ms1 tl1].
  rewrite repl_title_pass.
  destruct (Re.finditer (pat_no env_name) _) as [ms2 tl2].
  rewrite repl_no_pass, counter_of_advance, advance_add. reflexivity.
Qed.

(** One turn over a name with any other class. *)
Lemma plain_turn (prefix text : string) (lc : gmap string nat) (env_name cc lb : string) :
  cc ∉ NUMBERED_CSS ->
  let '(ms1, tl1) := Re.finditer (pat_title env_name) text in
  let text1 := weave (fun _ m => titled_div prefix cc lb None m) 0 ms1 tl1 in
  let '(ms2, tl2) := Re.finditer (pat_no env_name) text1 in
  convert_one_environment prefix (text, lc) (env_name, (cc, lb))
  = (weave (fun _ m => plain_div prefix cc lb None m) 0 ms2 tl2, lc).
Proof.
  intros Hcc.
  unfold convert_one_environment, Re.sub_st.
  rewrite (bool_decide_eq_false_2 _ Hcc).
  destruct (Re.finditer (pat_title env_name) text) as [ms1 tl1].
  rewrite (unnumbered_pass _ (titled_div prefix cc lb None)).
  - destruct (Re.finditer (pat_no env_name) _) as [ms2 tl2].
    rewrite (unnumbered_pass _ (plain_div prefix cc lb None)); [reflexivity |].
    intros m st. unfold repl_no, plain_div.
    now rewrite <- (heading_plain prefix lb "").
  - intros m st. unfold repl_title, titled_div.
    now rewrite (heading_plain prefix), env_div_block.
Qed.

(** The counters one turn leaves. *)
Lemma turn_counters (prefix : string) (acc : string * gmap string nat)
    (e : string * (string * string)) (lb : string) :
  counter_of lb (snd (convert_one_environment prefix acc e))
  = counter_of lb (snd acc)
    + (if bool_decide (fst (snd e) ∈ NUMBERED_CSS) && String.eqb (snd (snd e)) lb
       then turn_count prefix acc e else 0).
Proof.
  destruct acc as [text lc]. destruct e as [env_name [cc lb']]. cbn [fst snd].
  destruct (decide (cc ∈ NUMBERED_CSS)) as [Hcc | Hcc].
  - rewrite (bool_decide_eq_true_2 _ Hcc). cbn [andb].
    pose proof (numbered_turn prefix text lc env_name cc lb' Hcc) as T. cbn zeta in T.
    unfold turn_count. rewrite (bool_decide_eq_true_2 _ Hcc).
    unfold Re.sub_st at 1.
    destruct (Re.finditer (pat_title env_name) text) as [ms1 tl1].
    rewrite repl_title_pass. cbn [fst].
    destruct (Re.finditer (pat_no env_name) _) as [ms2 tl2].
    rewrite T. cbn [fst snd].
    destruct (String.eqb_spec lb' lb) as [-> | Hne].
    + apply counter_of_advance.
    + rewrite counter_of_advance_ne by congruence. lia.
  - rewrite (bool_decide_eq_false_2 _ Hcc). cbn [andb].
    pose proof (plain_turn prefix text lc env_name cc lb' Hcc) as T.
    destruct (Re.finditer (pat_title env_name) text) as [ms1 tl1].
    cbn zeta in T.
    destruct (Re.finditer (pat_no env_name)
                (weave (fun _ m => titled_div prefix cc lb' None m) 0 ms1 tl1))
      as [ms2 tl2].
    rewrite T. cbn [snd]. lia.
Qed.

(** The counters the loop leaves: for every label the number it started
    with and the environments numbered under it since. *)
Lemma loop_counters (prefix lb : string) (envs : list (string * (string * string))) :
  forall acc,
    counter_of lb (snd (fold_left (convert_one_environment prefix) envs acc))
    = counter_of lb (snd acc) + numbered_under lb prefix acc envs.
Proof.
  induction envs as [|e envs IH]; intros acc; cbn [fold_left numbered_under]; [lia |].
  rewrite IH, turn_counters. lia.
Qed.

(** C3.  [convert_environments] starts with no counter and makes one
    turn for each environment name, in the order of the table.  A turn
    over a name whose style class is one of [env-theorem],
    [env-definition], [env-example] numbers first the environments of
    that name with a title and then the ones without, going on from the
    number of environments numbered under the same display label in the
    turns before, whatever their names; the first number of a label is 1.
    A turn over a name with any other class writes no number and moves no
    counter.  The number is written [prefix.count] with a card prefix and
    [count] without.  A theorem and a definition in one section of card 8
    are both numbered 8.1; two names that share a label share its
    numbers. *)
Theorem per_label_numbering :
  (forall prefix text envs env_name cc lb,
      cc ∈ NUMBERED_CSS ->
      let '(text0, lc0) := fold_left (convert_one_environment prefix) envs (text, ∅) in
      let c0 := numbered_under lb prefix (text, ∅) envs in
      let '(ms1, tl1) := Re.finditer (pat_title env_name) text0 in
      let text1 := weave (fun k m => titled_div prefix cc lb (Some (c0 + k + 1)) m)
                         0 ms1 tl1 in
      let '(ms2, tl2) := Re.finditer (pat_no env_name) text1 in
      fst (fold_left (convert_one_environment prefix) (envs ++ [(env_name, (cc, lb))])
             (text, ∅))
      = weave (fun k m => plain_div prefix cc lb (Some (c0 + length ms1 + k + 1)) m)
              0 ms2 tl2)
  /\ (forall prefix text lc env_name cc lb,
         cc ∉ NUMBERED_CSS ->
         let '(ms1, tl1) := Re.finditer (pat_title env_name) text in
         let text1 := weave (fun _ m => titled_div prefix cc lb None m) 0 ms1 tl1 in
         let '(ms2, tl2) := Re.finditer (pat_no env_name) text1 in
         convert_one_environment prefix (text, lc) (env_name, (cc, lb))
         = (weave (fun _ m => plain_div prefix cc lb None m) 0 ms2 tl2, lc))
  /\ (forall text envs proof_label card_stt lb,
         counter_of lb (snd (convert_environments_st text envs proof_label card_stt))
         = numbered_under lb (prefix_of card_stt) (text, ∅) envs)
  /\ (forall card_stt n,
         card_stt <> 0%Z ->
         numbered (prefix_of card_stt) n = str_int card_stt ++ "." ++ dec n)
  /\ (forall n, numbered (prefix_of 0) n = dec n)
  /\ (forall cc,
         cc ∈ NUMBERED_CSS
         <-> cc = "env-theorem" \/ cc = "env-definition" \/ cc = "env-example")
  /\ convert_environments theorem_and_definition DEFAULT_ENVIRONMENTS "Proof" 8
     = "<div class=" ++ dq ++ "env-theorem" ++ dq ++ "><strong>Theorem 8.1:</strong><br>"
       ++ nl ++ "A" ++ nl ++ "</div> "
       ++ "<div class=" ++ dq ++ "env-theorem" ++ dq
       ++ "><strong>Definition 8.1:</strong><br>" ++ nl ++ "B" ++ nl ++ "</div>"
  /\ convert_environments mixed_environments DEFAULT_ENVIRONMENTS "Proof" 0
     = "<div class=" ++ dq ++ "env-theorem" ++ dq ++ "><strong>Dinh ly 4:</strong><br>"
       ++ nl ++ "R" ++ nl ++ "</div> "
       ++ "<div class=" ++ dq ++ "env-theorem" ++ dq ++ "><strong>Dinh ly 2:</strong><br>"
       ++ nl ++ "A" ++ nl ++ "</div> "
       ++ "<div class=" ++ dq ++ "env-theorem" ++ dq
       ++ "><strong>Dinh ly 1 (T):</strong><br>" ++ nl ++ "B" ++ nl ++ "</div> "
       ++ "<div class=" ++ dq ++ "box-yellow" ++ dq ++ "><strong>Luu y (N):</strong><br>"
       ++ nl ++ "C" ++ nl ++ "</div> "
       ++ "<div class=" ++ dq ++ "env-theorem" ++ dq
       ++ "><strong>Dinh ly 3 (U):</strong><br>" ++ nl ++ "D" ++ nl ++ "</div> "
       ++ "<div class=" ++ dq ++ "env-proof" ++ dq ++ "><strong>Proof:</strong><br>"
       ++ nl ++ "P" ++ nl ++ "</div>".
Proof.
  split; [| split; [| split; [| split; [| split; [| split; [| split]]]]]].
  - intros prefix text envs env_name cc lb Hcc.
    rewrite fold_left_app. cbn [fold_left].
    pose proof (loop_counters prefix lb envs (text, ∅)) as C. cbn [snd] in C.
    destruct (fold_left (convert_one_environment prefix) envs (text, ∅)) as [text0 lc0].
    cbn [snd] in C. change (counter_of lb ∅) with 0 in C. cbn [Nat.add] in C.
    pose proof (numbered_turn prefix text0 lc0 env_name cc lb Hcc) as T. cbn zeta in T.
    rewrite C in T.
    destruct (Re.finditer (pat_title env_name) text0) as [ms1 tl1].
    destruct (Re.finditer (pat_no env_name) _) as [ms2 tl2].
    now rewrite T.
  - intros. now apply plain_turn.
  - intros text envs proof_label card_stt lb. unfold convert_environments_st.
    pose proof (loop_counters (prefix_of card_stt) lb envs (text, ∅)) as C.
    destruct (fold_left _ envs (text, ∅)) as [t lc]. cbn [snd] in *. exact C.
  - apply numbered_with_prefix.
  - reflexivity.
  - apply numbered_css_spec.
  - vm_compute. reflexivity.
  - vm_compute. reflexivity.
Qed.

(** The claim at work: after a turn that numbered two environments under
    [Dinh ly], the turn over the other name with that label goes on with
    3 and 4, the environment with a title first. *)
Lemma per_label_numbering_witness :
  "env-theorem" ∈ NUMBERED_CSS
  /\ fst (fold_left (convert_one_environment "8")
            [("dinhly", ("env-theorem", "Dinh ly")); ("dinhri", ("env-theorem", "Dinh ly"))]
            (mixed_environments, ∅))
     = "<div class=" ++ dq ++ "env-theorem" ++ dq ++ "><strong>Dinh ly 8.4:</strong><br>"
       ++ nl ++ "R" ++ nl ++ "</div> "
       ++ "<div class=" ++ dq ++ "env-theorem" ++ dq ++ "><strong>Dinh ly 8.2:</strong><br>"
       ++ nl ++ "A" ++ nl ++ "</div> "
       ++ "<div class=" ++ dq ++ "env-theorem" ++ dq
       ++ "><strong>Dinh ly 8.1 (T):</strong><br>" ++ nl ++ "B" ++ nl ++ "</div> "
       ++ "\begin{luuy}[N]C\end{luuy} "
       ++ "<div class=" ++ dq ++ "env-theorem" ++ dq
       ++ "><strong>Dinh ly 8.3 (U):</strong><br>" ++ nl ++ "D" ++ nl ++ "</div> "
       ++ "\begin{proof}P\end{proof}".
Proof.
  assert (H : "env-theorem" ∈ NUMBERED_CSS) by (apply numbered_css_spec; auto).
  split; [exact H |].
  pose proof (proj1 per_label_numbering "8" mixed_environments
                [("dinhly", ("env-theorem", "Dinh ly"))]
                "dinhri" "env-theorem" "Dinh ly" H) as P.
  destruct (fold_left (convert_one_environment "8")
              [("dinhly", ("env-theorem", "Dinh ly"))] (mixed_environments, ∅))
    as [text0 lc0] eqn:E0.
  cbn zeta in P.
  assert (T0 : text0
               = "\begin{dinhri}R\end{dinhri} "
                 ++ env_block "env-theorem" "Dinh ly 8.2" "A" ++ " "
                 ++ env_block "env-theorem" "Dinh ly 8.1 (T)" "B"
                 ++ " \begin{luuy}[N]C\end{luuy} "
                 ++ "\begin{dinhri}[U]D\end{dinhri} \begin{proof}P\end{proof}").
  { apply (f_equal fst) in E0. cbn [fst] in E0. rewrite <- E0. vm_compute. reflexivity. }
  assert (C0 : numbered_under "Dinh ly" "8" (mixed_environments, ∅)
                 [("dinhly", ("env-theorem", "Dinh ly"))] = 2)
    by (vm_compute; reflexivity).
  rewrite C0 in P. subst text0.
  destruct (Re.finditer (pat_title "dinhri") _) as [ms1 tl1] eqn:E1.
  vm_compute in E1. inversion E1; subst ms1 tl1; clear E1.
  cbn [weave length] in P.
  destruct (Re.finditer (pat_no "dinhri") _) as [ms2 tl2] eqn:E2.
  vm_compute in E2. inversion E2; subst ms2 tl2; clear E2.
  cbn [app] in P. rewrite P. vm_compute. reflexivity.
Defined.

(** ** Images without an images directory (claim C9) *)
















(** C9 as stated fails: the argument is taken up to the first closing
    brace, so of a file name with braces in it the end stays in the
    text; and a starred command is not touched. *)
Lemma braced_file_name_is_cut :
  convert_includegraphics bare_world "\includegraphics{{a.b}.png}" NoImagesDir
  = Ok ".png}".
Proof. vm_compute. reflexivity. Qed.

Lemma starred_command_is_kept :
  convert_includegraphics bare_world "\includegraphics*{s.png}" NoImagesDir
  = Ok "\includegraphics*{s.png}".
Proof. vm_compute. reflexivity. Qed.

(** ** Tables in [tabular] environments (claim C10) *)





(** ** Lists (claim C7) *)

Lemma startswith_app_false (p a b : string) :
  startswith p (a ++ b) = false -> startswith p a = false.
Proof.
  intros H. destruct (startswith p a) eqn:E; [| reflexivity].
  apply startswith_spec in E as [t ->]. rewrite append_assoc in H.
  now rewrite startswith_refl_app in H.
Qed.

Lemma ahead_begin_fails (s : Re.mstate) :
  Re.mt ahead_begin s Some = None ->
  startswith "\begin{itemize}" (Re.ms_rest s) = false
  /\ startswith "\begin{enumerate}" (Re.ms_rest s) = false.
Proof.
  destruct s as [p rest caps]. cbn [Re.ms_rest]. intros H.
  split.
  - destruct (startswith "\begin{itemize}" rest) eqn:E; [| reflexivity].
    apply startswith_spec in E as [t ->]. vm_compute in H. discriminate.
  - destruct (startswith "\begin{enumerate}" rest) eqn:E; [| reflexivity].
    apply startswith_spec in E as [t ->]. vm_compute in H. discriminate.
Qed.

Lemma ahead_end_fails (s : Re.mstate) :
  Re.mt ahead_end s Some = None ->
  startswith "\end{itemize}" (Re.ms_rest s) = false
  /\ startswith "\end{enumerate}" (Re.ms_rest s) = false.
Proof.
  destruct s as [p rest caps]. cbn [Re.ms_rest]. intros H.
  split.
  - destruct (startswith "\end{itemize}" rest) eqn:E; [| reflexivity].
    apply startswith_spec in E as [t ->]. vm_compute in H. discriminate.
  - destruct (startswith "\end{enumerate}" rest) eqn:E; [| reflexivity].
    apply startswith_spec in E as [t ->]. vm_compute in H. discriminate.
Qed.

(** The body the pattern takes has no list mark in it. *)
Lemma tempered_innermost (n : nat) :
  forall s w s1, den_iter (den tempered_char) n s w s1 -> innermost w = true.
Proof.
  induction n as [|n IH]; intros s w s1; cbn [den_iter].
  - intros [-> _]. reflexivity.
  - intros (s' & u & v & -> & Hu & Hv).
    pose proof (den_iter_rest _ (den_rest tempered_char) _ _ _ _ Hv) as Hr.
    apply IH in Hv.
    cbn [den tempered_char] in Hu.
    destruct Hu as (sa & x1 & x2 & -> & (-> & -> & Hb) & sb & x3 & x4 & -> & (-> & -> & He)
                    & (d & _ & -> & Hd & _)).
    apply ahead_begin_fails in Hb as [B1 B2]. apply ahead_end_fails in He as [E1 E2].
    rewrite Hd, Hr in B1, B2, E1, E2.
    change (String d (v ++ Re.ms_rest s1)) with (String d v ++ Re.ms_rest s1)
      in B1, B2, E1, E2.
    apply startswith_app_false in B1, B2, E1, E2.
    unfold innermost, list_markers in *. cbn [forallb] in *.
    cbn [append]. cbn [contains].
    rewrite B1, B2, E1, E2. exact Hv.
Qed.

Lemma pat_innermost_list_lits :
  pat_innermost_list
  = lits "\begin{"
      (Re.Seq (Re.Grp 1 (Re.Alt (lits "itemiz" (Re.Lit "e")) (lits "enumerat" (Re.Lit "e"))))
         (Re.Seq (Re.Lit "}")
            (Re.Seq (Re.Grp 2 (Re.Rep false 0 None tempered_char))
               (lits "\end{" (Re.Seq (Re.Bref 1) (Re.Lit "}")))))).
Proof. reflexivity. Qed.

Lemma innermost_match_shape (gm : string * rmatch) :
  found_by pat_innermost_list gm ->
  list_env (snd gm) /\ innermost (group 2 (snd gm)) = true.
Proof.
  intros (prev & s & adv & E). apply exec_den in E as (s1 & D & _ & C).
  rewrite pat_innermost_list_lits in D.
  apply den_lits in D as (v & s' & Hall & D & _ & C0). cbn [Re.ms_caps] in C0.
  cbn [den] in D.
  destruct D as (sa & tag & v1 & -> & (sb & Dtag & ->) & sc & rb & v2 & -> & Drb
                 & sd & body & v3 & -> & (se & (n & _ & _ & Dbody) & ->) & Dend).
  assert (Ctag : Re.ms_caps sb = Re.ms_caps s' /\ (tag = "itemize" \/ tag = "enumerate")).
  { destruct Dtag as [Dt | Dt]; apply den_lits in Dt as (x & sx & -> & Dx & _ & Cx);
      apply den_lit in Dx as (-> & _ & Cy); (split; [congruence | auto]). }
  destruct Ctag as [Ctag Htag].
  apply (den_lit "}") in Drb as (-> & _ & Crb). cbn [Re.ms_caps] in Crb.
  pose proof (tempered_innermost n _ _ _ Dbody) as Hinner.
  apply (den_iter_caps _ (den_no_grp tempered_char eq_refl) n) in Dbody.
  apply den_lits in Dend as (v4 & sf & -> & Dend & _ & Ce). cbn [Re.ms_caps] in Ce.
  cbn [den] in Dend. destruct Dend as (sg & x & y & -> & (Hx & _ & Cg & _) & Dl).
  apply (den_lit "}") in Dl as (-> & _ & Ch).
  assert (Caps : Re.ms_caps sf = [(2, body); (1, tag)]) by congruence.
  rewrite Caps in Hx. cbn in Hx. inversion Hx; subst x; clear Hx.
  assert (Cap : Re.m_caps (snd gm) = [(2, body); (1, tag)]) by congruence.
  assert (G1 : group 1 (snd gm) = tag)
    by (unfold Re.group, Re.group_opt; rewrite Cap; reflexivity).
  assert (G2 : group 2 (snd gm) = body)
    by (unfold Re.group, Re.group_opt; rewrite Cap; reflexivity).
  unfold list_env. rewrite G1, G2, Hall. repeat split; auto.
Qed.

Lemma ahead_begin_lits :
  ahead_begin
  = lits "\begin{" (Re.Seq (Re.Alt (lits "itemiz" (Re.Lit "e")) (lits "enumerat" (Re.Lit "e")))
                      (Re.Lit "}")).
Proof. reflexivity. Qed.

Lemma ahead_end_lits :
  ahead_end
  = lits "\end{" (Re.Seq (Re.Alt (lits "itemiz" (Re.Lit "e")) (lits "enumerat" (Re.Lit "e")))
                    (Re.Lit "}")).
Proof. reflexivity. Qed.

Lemma tag_den (s : Re.mstate) (w : string) (s1 : Re.mstate) :
  den (Re.Alt (lits "itemiz" (Re.Lit "e")) (lits "enumerat" (Re.Lit "e"))) s w s1 ->
  (w = "itemize" \/ w = "enumerate") /\ Re.ms_rest s = w ++ Re.ms_rest s1.
Proof.
  intros D. pose proof (den_rest _ _ _ _ D) as R. split; [| exact R].
  destruct D as [D | D]; apply den_lits in D as (x & sx & -> & Dx & _);
    apply den_lit in Dx as (-> & _); auto.
Qed.

(** A mark of a list that the matcher sees ahead is there. *)
Lemma mark_ahead (name : string) (k : Re.re) (s : Re.mstate) (res : Re.mstate) :
  k = lits name (Re.Seq (Re.Alt (lits "itemiz" (Re.Lit "e")) (lits "enumerat" (Re.Lit "e")))
                   (Re.Lit "}")) ->
  Re.mt k s Some = Some res ->
  startswith (name ++ "itemize}") (Re.ms_rest s) = true
  \/ startswith (name ++ "enumerate}") (Re.ms_rest s) = true.
Proof.
  intros -> H. apply mt_den in H as (w & s1 & D & _).
  apply den_lits in D as (v & s' & -> & D & Hr & _). rewrite Hr.
  cbn [den] in D. destruct D as (sa & tag & b & -> & Dtag & Db).
  apply tag_den in Dtag as [Htag Hr2]. apply den_lit in Db as (-> & Hr3 & _).
  rewrite Hr2, Hr3.
  destruct Htag as [-> | ->]; [left | right].
  - replace (name ++ "itemize" ++ String "}" (Re.ms_rest s1))
      with ((name ++ "itemize}") ++ Re.ms_rest s1) by (now rewrite append_assoc).
    apply startswith_refl_app.
  - replace (name ++ "enumerate" ++ String "}" (Re.ms_rest s1))
      with ((name ++ "enumerate}") ++ Re.ms_rest s1) by (now rewrite append_assoc).
    apply startswith_refl_app.
Qed.

Lemma innermost_tail (d : ascii) (b : string) :
  innermost (String d b) = true -> innermost b = true.
Proof.
  unfold innermost, list_markers. cbn [forallb]. rewrite !andb_true_r.
  rewrite !andb_true_iff, !negb_true_iff. cbn [contains].
  rewrite !orb_false_iff. tauto.
Qed.

Lemma innermost_no_mark (body x : string) (mark : string) :
  In mark list_markers -> innermost body = true -> body <> "" ->
  startswith mark (body ++ String "\" x) = false.
Proof.
  intros Hin Hi Hb.
  destruct (startswith mark (body ++ String "\" x)) eqn:E; [| reflexivity].
  assert (C : contains mark body = false).
  { unfold innermost in Hi. rewrite forallb_forall in Hi.
    specialize (Hi mark Hin). now apply negb_true_iff in Hi. }
  assert (M : exists p, mark = String "\" p /\ mem_char "\" p = false).
  { unfold list_markers in Hin. cbn [In] in Hin.
    repeat (destruct Hin as [<- | Hin]; [eexists; split; reflexivity |]). destruct Hin. }
  destruct M as (p & -> & Hp).
  apply (startswith_no_straddle "\" p body x Hp Hb), contains_startswith in E.
  congruence.
Qed.

(** The characters of a body without a mark of a list are taken one by
    one. *)
Lemma tempered_body (x : string) (caps : list (nat * string)) (body : string) :
  innermost body = true ->
  forall p,
    den_iter (den tempered_char) (String.length body)
      (Re.MS p (body ++ String "\" x) caps) body (ahead p body (String "\" x) caps).
Proof.
  induction body as [|d b IH]; intros Hi p; [cbn; auto |].
  cbn [String.length den_iter].
  exists (Re.MS (Some d) (b ++ String "\" x) caps), (String d ""), b.
  split; [reflexivity |]. split; [| apply (IH (innermost_tail d b Hi))].
  assert (N : forall mark, In mark list_markers ->
                startswith mark (String d b ++ String "\" x) = false).
  { intros mark Hin. now apply innermost_no_mark. }
  unfold tempered_char.
  apply (den_seq_intro _ _ _ (Re.MS p (String d b ++ String "\" x) caps) _ "" (String d "")).
  { cbn [den]. split; [reflexivity | split; [reflexivity |]].
    destruct (Re.mt ahead_begin _ Some) as [res |] eqn:E; [| reflexivity].
    apply (mark_ahead "\begin{" _ _ _ ahead_begin_lits) in E. cbn [Re.ms_rest] in E.
    destruct E as [E | E]; rewrite N in E; try discriminate; cbn; auto. }
  apply (den_seq_intro _ _ _ (Re.MS p (String d b ++ String "\" x) caps) _ "" (String d "")).
  { cbn [den]. split; [reflexivity | split; [reflexivity |]].
    destruct (Re.mt ahead_end _ Some) as [res |] eqn:E; [| reflexivity].
    apply (mark_ahead "\end{" _ _ _ ahead_end_lits) in E. cbn [Re.ms_rest] in E.
    destruct E as [E | E]; rewrite N in E; try discriminate; cbn; auto. }
  cbn [den append]. exists d. auto.
Qed.

(** There is a way to match at the head of a list environment with no
    list inside it. *)
Lemma list_den (tag body : string) (p : option ascii) (after : string) :
  list_tag tag -> innermost body = true ->
  exists s1,
    den pat_innermost_list (Re.MS p (list_text tag body ++ after) [])
      (list_text tag body) s1.
Proof.
  intros Htag Hi. rewrite pat_innermost_list_lits. unfold list_text.
  eexists. rewrite !append_assoc. apply den_lits_intro.
  eapply den_seq_intro.
  { apply den_grp_intro.
    instantiate (1 := ahead (Re.last_char p "\begin{") tag
                        ("}" ++ body ++ "\end{" ++ tag ++ "}" ++ after) []).
    destruct Htag as [-> | ->]; [left | right].
    - apply (den_lits_intro "itemiz" (Re.Lit "e") _ _ [] "e"). apply den_lit_intro.
    - apply (den_lits_intro "enumerat" (Re.Lit "e") _ _ [] "e"). apply den_lit_intro. }
  cbn [ahead Re.ms_prev Re.ms_rest Re.ms_caps].
  eapply (den_seq_intro _ _ _ _ _ "}"); [apply den_lit_intro |].
  eapply den_seq_intro.
  { apply den_grp_intro. cbn [den]. exists (String.length body).
    split; [lia | split; [discriminate |]].
    apply (tempered_body ("end{" ++ tag ++ "}" ++ after) [(1, tag)] body Hi). }
  cbn [ahead Re.ms_prev Re.ms_rest Re.ms_caps].
  apply (den_lits_intro "\end{" _ _ _ _ (tag ++ "}")).
  eapply (den_seq_intro _ _ _
            (Re.MS (Re.last_char (Re.last_char (Re.last_char (Some "}"%char) body) "\end{") tag)
               ("}" ++ after) [(2, body); (1, tag)])).
  - cbn [den ahead Re.ms_caps Re.ms_rest Re.ms_prev Re.cap_get Nat.eqb]. auto.
  - apply den_lit_intro.
Qed.

Lemma list_html_as_html_list (m : rmatch) :
  list_html m = html_list (group 1 m) (list_items (group 2 m)).
Proof.
  unfold list_html, html_list.
  destruct (list_items (group 2 m)); [reflexivity |].
  destruct (String.eqb (group 1 m) "itemize"); reflexivity.
Qed.

Lemma list_exec (t before tag body after : string) :
  innermost_at t before tag body after ->
  Re.exec pat_innermost_list (Re.last_char None before) (list_text tag body ++ after) false
  <> None.
Proof.
  intros (_ & Htag & Hi).
  destruct (list_den tag body (Re.last_char None before) after Htag Hi) as [s1 D].
  destruct (exec_complete pat_innermost_list _ _ _ _ eq_refl D) as [m E].
  congruence.
Qed.

Lemma convert_lists_loop_rewrites (k : nat) :
  forall text,
    exists n, n <= k /\ rewrites n text (convert_lists_loop k text)
              /\ (n < k -> forall before tag body after,
                    ~ innermost_at (convert_lists_loop k text) before tag body after).
Proof.
  induction k as [|k IH]; intros text; cbn [convert_lists_loop].
  - exists 0. split; [lia | split; [constructor | lia]].
  - destruct (convert_lists_step text) as [text' |] eqn:S.
    + unfold convert_lists_step in S.
      destruct (Re.search pat_innermost_list text) as [[[before m] after] |] eqn:E;
        [| discriminate].
      inversion S; subst text'; clear S. rewrite list_html_as_html_list.
      destruct (IH (before ++ html_list (group 1 m) (list_items (group 2 m)) ++ after))
        as (n & Hn & Hr & Hstop).
      exists (S n). split; [lia | split; [| intros; apply Hstop; lia]].
      pose proof (search_spec _ _ _ _ _ E) as [Hs Hf].
      apply innermost_match_shape in Hf as [[Htag Hl] Hi]. cbn [snd] in *.
      apply (rewrites_one n text before (group 1 m) (group 2 m) after);
        [now rewrite Hs, Hl | | exact Hr].
      intros before' tag' body' after' Hat.
      destruct (Nat.le_gt_cases (String.length before) (String.length before'))
        as [L | L]; [exact L |].
      exfalso. apply (list_exec _ _ _ _ _ Hat).
      destruct Hat as (Ht & _). apply search_first in E as [_ Hfirst].
      now apply Hfirst.
    + exists 0. split; [lia | split; [constructor |]].
      intros _ before tag body after Hat. apply (list_exec _ _ _ _ _ Hat).
      unfold convert_lists_step in S.
      destruct (Re.search pat_innermost_list text) as [[[b m] a] |] eqn:E; [discriminate |].
      destruct Hat as (Ht & _). now apply (search_none _ _ E).
Qed.

(** C7.  [convert_lists] makes at most 20 turns of its loop and returns
    on every text.  Each turn replaces the leftmost [itemize] or
    [enumerate] environment whose body holds no begin or end mark of a
    list by its HTML list ([<ul>] for [itemize], [<ol>] for
    [enumerate]), and changes nothing else; the result is the text after
    the last turn, so whatever list markup is left after 20 turns stays
    as it is; when fewer than 20 turns were made, no such environment is
    left in the result.  A list inside a list is converted before the
    list around it, and of 21 lists side by side the first 20 are
    converted and the last one stays as it was written. *)
Theorem convert_lists_innermost_bounded :
  (forall text : string,
      exists n,
        n <= 20
        /\ rewrites n (Re.sub pat_enum_opts (fun _ => "\begin{enumerate}") text)
                    (convert_lists text)
        /\ (n < 20 -> forall before tag body after,
              ~ innermost_at (convert_lists text) before tag body after))
  /\ convert_lists nested_lists
     = "<ol>" ++ nl ++ "<li>one</li>" ++ nl
       ++ "<li>two <ul>" ++ nl ++ "<li>a</li>" ++ nl ++ "<li>b</li>" ++ nl ++ "</ul></li>"
       ++ nl ++ "</ol>"
  /\ convert_lists (many_lists 21)
     = String.concat "" (repeat ("<ul>" ++ nl ++ "<li>a</li>" ++ nl ++ "</ul>") 20)
       ++ one_list.
Proof.
  split; [| split; vm_compute; reflexivity].
  intros text. unfold convert_lists. apply convert_lists_loop_rewrites.
Qed.

(** ** Restoring placeholders (claim C1) *)


























(** ** Math round trip (claim C1) *)









(** *** Every stored original opens with a dollar sign *)








(** *** Texts with inline math only *)


















(** The example of the specification, through the whole pipeline. *)
Lemma formula_example :
  latex_to_html bare_world "Formula $x^2+y^2$ done." default_options None None
  = Ok ("<p>Formula $x^2+y^2$ done.</p>", 0%Z, 0%Z).
Proof. vm_compute. reflexivity. Qed.


Lemma labelled_equation_output :
  latex_to_html bare_world equation_with_label default_options None None
  = Ok ("<p>$$\begin{aligned}a\end{aligned}$$</p>", 0%Z, 0%Z).
Proof. vm_compute. reflexivity. Qed.

(** A placeholder followed by the letters [MATH_] and a further
    placeholder is mistaken for a placeholder: the spans [$b$] and [$c$]
    are lost. *)
Lemma placeholder_straddle :
  restore_math (fst (protect_math "$a$ $b$MATH_0$c$")) (snd (protect_math "$a$ $b$MATH_0$c$"))
  = "$a$ " ++ String nul "MATH_1$a$MATH_2" ++ String nul "".
Proof. vm_compute. reflexivity. Qed.


(** ** Code isolation (claim C2) *)

(** C2 (the code departs from the claim).  [latex_to_html] strips
    comments before it extracts code, so a [verbatim] block loses every
    line from its first percent sign on: the block [a % b] is rendered as
    [a]. *)
Theorem verbatim_percent_is_cut :
  latex_to_html bare_world verbatim_with_percent default_options None None
  = Ok (code_pre "a", 0%Z, 0%Z).
Proof. vm_compute. reflexivity. Qed.

(** The clean-up of blank lines runs after the code is put back: two
    blank lines inside a block become one. *)
Lemma verbatim_blank_lines_are_merged :
  latex_to_html bare_world verbatim_with_blank_lines default_options None None
  = Ok (code_pre ("a" ++ nl ++ nl ++ "b"), 0%Z, 0%Z).
Proof. vm_compute. reflexivity. Qed.

(** The example of the claim holds: the commands inside a listing are
    kept as text, escaped once. *)
Lemma listing_textbf_is_literal :
  latex_to_html bare_world listing_with_textbf default_options None None
  = Ok (code_pre "\textbf{x} &lt;b&gt; &amp; c", 0%Z, 0%Z).
Proof. vm_compute. reflexivity. Qed.

(** ** Missing images (claim C6) *)

(** C6 (the code departs from the claim).  The width of the options is
    read with [[\d.]+] and handed to [float]; on a width such as [0..5]
    [float] raises [ValueError], before the file is looked for, and
    nothing catches it. *)
Theorem missing_image_with_bad_width_raises :
  convert_includegraphics bare_world image_with_bad_width (OneDir "images")
  = Raise "ValueError".
Proof. vm_compute. reflexivity. Qed.

Lemma missing_image_with_bad_width_raises_in_pipeline :
  latex_to_html bare_world image_with_bad_width
    (Options DEFAULT_ENVIRONMENTS "Proof" "(see related section)" (OneDir "images") 0 "")
    None None
  = Raise "ValueError".
Proof. vm_compute. reflexivity. Qed.

(** With options that [float] accepts, a file that is not found becomes
    the placeholder paragraph that names it. *)
Lemma missing_image_placeholder (w : world) (images_dirs : list string) (m : rmatch)
    (style_parts : list string) :
  width_styles w (group 1 m) = Ok style_parts ->
  find_image w (strip (group 2 m)) (search_dirs_of images_dirs) = None ->
  includegraphics_repl w images_dirs m
  = Ok (image_placeholder "Image" (strip (group 2 m))).
Proof. intros H1 H2. unfold includegraphics_repl. rewrite H1. cbn. now rewrite H2. Qed.

Lemma missing_image_example :
  convert_includegraphics bare_world "\includegraphics{missing.png}" (OneDir "images")
  = Ok (image_placeholder "Image" "missing.png").
Proof. vm_compute. reflexivity. Qed.

